(** * ai_diffusion/util.py: managed process launch and long-path extraction

    A shallow embedding of [create_process], [set_pdeathsig],
    [LongPathZipFile._extract_member] and the module-level platform flags
    of [ai_diffusion/util.py], with the properties of the launch
    environment, the spawn options, the stream wiring, error propagation,
    job attachment and the extended-length path rewrite. *)

From Stdlib Require Import ZArith String Ascii List Bool Lia.
From stdpp Require Import base option gmap strings list fin_maps pretty.

Local Open Scope string_scope.
Local Open Scope Z_scope.

(** ** Python string primitives used by the module *)

Module PyStr.

(** [s.startswith(prefix)] *)
Fixpoint startswith (s pre : string) {struct pre} : bool :=
  match pre with
  | EmptyString => true
  | String c pre' =>
      match s with
      | EmptyString => false
      | String d s' => if Ascii.eqb c d then startswith s' pre' else false
      end
  end.

(** [s[n:]] for a non-negative literal [n] *)
Fixpoint slice_from (n : nat) (s : string) : string :=
  match n with
  | O => s
  | S n' =>
      match s with
      | EmptyString => EmptyString
      | String _ s' => slice_from n' s'
      end
  end.

End PyStr.

(** ** Module-level platform flags (lines 18-20)

    The flags are computed once from [sys.platform]; the embedding takes
    that string as the platform identity. *)

Module Platform.

Definition is_windows (sys_platform : string) : bool :=
  PyStr.startswith sys_platform "win".

Definition is_macos (sys_platform : string) : bool :=
  String.eqb sys_platform "darwin".

Definition is_linux (sys_platform : string) : bool :=
  negb (is_windows sys_platform) && negb (is_macos sys_platform).

End Platform.

(** ** Python objects the launch touches *)

(** A [dict] of environment variables. *)
Abbreviation dict := (gmap string string).

(** Dictionaries are mutable objects: variables hold references into a
    store, and [copy]/[update]/[del] act on the store. *)
Abbreviation loc := positive.
Abbreviation store := (gmap loc dict).

Module PyDict.

(** The dictionary a reference points to. *)
Definition deref (h : store) (l : loc) : dict := default ∅ (h !! l).

(** [d.copy()]: a new object with the same items. *)
Definition copy (h : store) (l : loc) : loc * store :=
  let l' := fresh (dom h) in (l', <[l' := deref h l]> h).

(** [d.update(other)]: items of [other] are written over those of [d]. *)
Definition update (h : store) (l other : loc) : store :=
  <[l := deref h other ∪ deref h l]> h.

(** [key in d] *)
Definition contains (h : store) (l : loc) (key : string) : bool :=
  bool_decide (is_Some (deref h l !! key)).

(** [del d[key]] (the caller has checked that the key is present) *)
Definition del (h : store) (l : loc) (key : string) : store :=
  <[l := delete key (deref h l)]> h.

(** Truth value of an optional dictionary argument: [None] and the empty
    dictionary are false. *)
Definition truthy (h : store) (arg : option loc) : bool :=
  match arg with
  | None => false
  | Some l => negb (bool_decide (deref h l = ∅))
  end.

End PyDict.

(** ** Arguments of [asyncio.create_subprocess_exec] *)

(** The special stream targets of [asyncio.subprocess]. *)
Inductive stdio : Type :=
| PIPE      (* a new pipe between host and child *)
| STDOUT    (* for stderr only: the child's standard output *)
| DEVNULL.

(** [subprocess.CREATE_NO_WINDOW] *)
Definition CREATE_NO_WINDOW : Z := 0x08000000.

(** [signal.SIGTERM] *)
Definition SIGTERM : Z := 15.

(** A call into libc made by a hook running in the child. *)
Inductive syscall : Type :=
| prctl (option arg2 : Z).

(** [set_pdeathsig] (lines 157-158): [prctl(PR_SET_PDEATHSIG = 1, SIGTERM)]. *)
Definition set_pdeathsig (_ : unit) : syscall := prctl 1 SIGTERM.

(** Values of the platform keyword arguments. *)
Inductive pyvalue : Type :=
| PyInt (n : Z)
| PyCallable (f : unit -> syscall).

(** One call of [asyncio.create_subprocess_exec]: the positional program
    and arguments, and the keyword arguments.  A keyword the call site
    does not pass keeps its default [None]. *)
Record exec_call : Type := ExecCall {
  ex_program : string;
  ex_args : list string;
  ex_cwd : option string;
  ex_stdin : option stdio;
  ex_stdout : option stdio;
  ex_stderr : option stdio;
  ex_env : dict;
  ex_platform : gmap string pyvalue
}.

(** The streams of a process handle. *)
Inductive stream : Type :=
| StreamWriter (pid : Z)            (* host writes, child reads on fd 0 *)
| StreamReader (pid : Z) (fd : Z).  (* host reads what the child writes on [fd] *)

(** [asyncio.subprocess.Process] *)
Record Process : Type := MkProcess {
  pid : Z;
  stdin : option stream;
  stdout : option stream;
  stderr : option stream
}.

(** The handle asyncio builds for a spawned child: a stream attribute is
    set exactly when the matching argument was [PIPE]. *)
Definition asyncio_process (child : Z) (c : exec_call) : Process :=
  {| pid := child;
     stdin := match ex_stdin c with Some PIPE => Some (StreamWriter child) | _ => None end;
     stdout := match ex_stdout c with Some PIPE => Some (StreamReader child 1) | _ => None end;
     stderr := match ex_stderr c with Some PIPE => Some (StreamReader child 2) | _ => None end |}.

(** What a standard descriptor of the child refers to. *)
Inductive child_end : Type :=
| HostDescriptor (fd : Z)   (* inherited: the host's own descriptor [fd] *)
| PipeEnd (s : stream)      (* a pipe whose other end the handle holds *)
| NullDevice
| ChildStdout.              (* for stderr: wherever the child's stdout goes *)

(** The meaning of a stream argument of the subprocess module for the
    child's descriptor [fd]: with [None] there is no redirection and the
    child inherits the descriptor of the host. *)
Definition child_descriptor (child fd : Z) (arg : option stdio) : child_end :=
  match arg with
  | None => HostDescriptor fd
  | Some PIPE =>
      PipeEnd (if fd =? 0 then StreamWriter child else StreamReader child fd)
  | Some DEVNULL => NullDevice
  | Some STDOUT => ChildStdout
  end.

(** The descriptor reaches the host: it is the host's own descriptor, or
    a pipe held by the host process. *)
Definition connected_to_host (e : child_end) : bool :=
  match e with
  | HostDescriptor _ | PipeEnd _ => true
  | NullDevice | ChildStdout => false
  end.

(** An [OSError] raised by the operating system. *)
Record OSError : Type := MkOSError {
  errno : Z;
  strerror : string
}.

(** Exceptions raised by the library calls and the helpers of the
    module. *)
Inductive pyerror : Type :=
| ValueError
| TypeError
| AttributeError
| SubprocessError
| RaisedOSError (e : OSError)      (* [OSError] and its subclasses *)
| OtherError (class_name : string).

(** ** Job objects *)

Module win32.

(** The kernel's answers to the two job-object calls. *)
Record Kernel : Type := MkKernel {
  CreateJobObject : option Z;                 (* the new job handle, or refusal *)
  AssignProcessToJobObject : Z -> Z -> bool   (* job handle, process id *)
}.

(** What the logger is told when supervision is degraded. *)
Inductive warning : Type :=
| JobCreationFailed
| AttachFailed (child : Z).

(** Process-wide job state of the host. *)
Record State : Type := MkState {
  job : option Z;              (* the process-wide job object, once created *)
  created : list Z;            (* every job object created so far *)
  members : list (Z * Z);      (* accepted assignments: (job, process id) *)
  log : list warning           (* warnings written to the logger *)
}.

Definition initial : State :=
  {| job := None; created := []; members := []; log := [] |}.

(** Modelled from the spec: [win32.attach_process_to_job] is imported by
    [create_process] but its module is not part of the sources.  Section
    4.5: the process-wide job object is created lazily on the first
    call and reused afterwards; the child is added to it; a failure of
    creation or of attachment is logged and not raised. *)
Definition attach_process_to_job (k : Kernel) (child : Z) (s : State) : State :=
  let obtained :=
    match job s with
    | Some j => Some (j, s)
    | None =>
        match CreateJobObject k with
        | Some j =>
            Some (j, {| job := Some j; created := j :: created s;
                        members := members s; log := log s |})
        | None => None
        end
    end in
  match obtained with
  | None =>
      {| job := job s; created := created s; members := members s;
         log := JobCreationFailed :: log s |}
  | Some (j, s') =>
      if AssignProcessToJobObject k j child
      then {| job := job s'; created := created s';
              members := (j, child) :: members s'; log := log s' |}
      else {| job := job s'; created := created s'; members := members s';
              log := AttachFailed child :: log s' |}
  end.

End win32.

(** ** The host: object store, environment, operating system *)

Record World : Type := MkWorld {
  objects : store;            (* dictionaries alive in the host *)
  os_environ : loc;           (* the object [os.environ] refers to *)
  spawned : list exec_call;   (* calls of create_subprocess_exec, latest first *)
  jobs : win32.State
}.

(** Outcome of a call: a value, or a raised exception. *)
Inductive outcome (A : Type) : Type :=
| Return (a : A)
| Raise (e : pyerror).
Arguments Return {A} a.
Arguments Raise {A} e.

(** Effectful code: reads and updates the host, may raise. *)
Definition M (A : Type) : Type := World -> outcome A * World.

#[global] Instance M_ret : MRet M := fun A a w => (Return a, w).
#[global] Instance M_bind : MBind M := fun A B f m w =>
  match m w with
  | (Return a, w') => f a w'
  | (Raise e, w') => (Raise e, w')
  end.

Definition get_objects : M store := fun w => (Return (objects w), w).
Definition set_objects (h : store) : M unit := fun w =>
  (Return tt, {| objects := h; os_environ := os_environ w;
                 spawned := spawned w; jobs := jobs w |}).
Definition get_environ : M loc := fun w => (Return (os_environ w), w).
Definition skip : M unit := mret tt.

(** A launch request: the parameters of [create_process]. *)
Record Request : Type := MkRequest {
  program : string;
  args : list string;
  cwd : option string;
  additional_env : option loc;
  pipe_stderr : bool
}.

Section Host.

(** [sys.platform] of the host. *)
Variable sys_platform : string.

(** The answer to a spawn call, given the earlier spawns: the child's
    process id, or the exception the call raises (an [OSError] of the
    operating system, or the error of an argument check made before the
    operating system is asked). *)
Variable os_exec : list exec_call -> exec_call -> pyerror + Z.

(** The kernel's job-object interface (Windows). *)
Variable kernel : win32.Kernel.

(** [asyncio.create_subprocess_exec]: one spawn call; its exception,
    if any, is raised. *)
Definition create_subprocess_exec (c : exec_call) : M Process := fun w =>
  let w' := {| objects := objects w; os_environ := os_environ w;
               spawned := c :: spawned w; jobs := jobs w |} in
  match os_exec (spawned w) c with
  | inl e => (Raise e, w')
  | inr child => (Return (asyncio_process child c), w')
  end.

(** [win32.attach_process_to_job] as a statement of the host. *)
Definition attach_process_to_job (child : Z) : M unit := fun w =>
  (Return tt, {| objects := objects w; os_environ := os_environ w;
                 spawned := spawned w;
                 jobs := win32.attach_process_to_job kernel child (jobs w) |}).

(** Lines 168-172. *)
Definition create_process_platform_args : gmap string pyvalue :=
  let platform_args : gmap string pyvalue := ∅ in
  let platform_args :=
    if Platform.is_windows sys_platform
    then <["creationflags" := PyInt CREATE_NO_WINDOW]> platform_args
    else platform_args in
  let platform_args :=
    if Platform.is_linux sys_platform
    then <["preexec_fn" := PyCallable set_pdeathsig]> platform_args
    else platform_args in
  platform_args.

(** Lines 174-178: the child's environment, built in a fresh
    dictionary. *)
Definition create_process_env (additional : option loc) : M loc :=
  environ ← get_environ;
  h ← get_objects;
  let '(env, h) := PyDict.copy h environ in
  set_objects h;;
  h ← get_objects;
  (if PyDict.truthy h additional
   then match additional with
        | Some other => set_objects (PyDict.update h env other)
        | None => skip
        end
   else skip);;
  h ← get_objects;
  (if PyDict.contains h env "PYTHONPATH"
   then set_objects (PyDict.del h env "PYTHONPATH")
   else skip);;
  mret env.

(** Lines 168-185: everything up to the [await]. *)
Definition create_process_spawn (r : Request) : M Process :=
  let platform_args := create_process_platform_args in
  env ← create_process_env (additional_env r);
  let out := PIPE in
  let err := if pipe_stderr r then PIPE else STDOUT in
  h ← get_objects;
  create_subprocess_exec
    {| ex_program := program r; ex_args := args r; ex_cwd := cwd r;
       ex_stdin := None; ex_stdout := Some out; ex_stderr := Some err;
       ex_env := PyDict.deref h env; ex_platform := platform_args |}.

(** Lines 186-190: the coroutine after the [await] has delivered [p]. *)
Definition create_process_resume (p : Process) : M Process :=
  (if Platform.is_windows sys_platform
   then attach_process_to_job (pid p)
   else skip);;
  mret p.

(** [create_process] *)
Definition create_process (r : Request) : M Process :=
  p ← create_process_spawn r;
  create_process_resume p.

End Host.

(** ** Views of the host used in the statements *)

(** The world after a computation, and its outcome. *)
Definition world_after {A} (m : M A) (w : World) : World := snd (m w).
Definition result_of {A} (m : M A) (w : World) : outcome A := fst (m w).

(** The host with its object store replaced. *)
Definition with_objects (w : World) (h : store) : World :=
  {| objects := h; os_environ := os_environ w;
     spawned := spawned w; jobs := jobs w |}.

(** The host environment snapshot [B]: the items of [os.environ]. *)
Definition host_environ (w : World) : dict :=
  PyDict.deref (objects w) (os_environ w).

(** The override mapping [O]: the items of [additional_env], none when the
    argument is [None]. *)
Definition overrides (w : World) (r : Request) : dict :=
  match additional_env r with
  | Some l => PyDict.deref (objects w) l
  | None => ∅
  end.

(** The request refers to live objects only. *)
Definition request_live (w : World) (r : Request) : Prop :=
  match additional_env r with
  | Some l => is_Some (objects w !! l)
  | None => True
  end.

(** [os.environ] is a live object. *)
Definition environ_live (w : World) : Prop :=
  is_Some (objects w !! os_environ w).

(** Section 4.1 of the specification, in its words: the base environment
    with the overrides applied on top, then the search-path variable
    removed. *)
Definition sanitize (base_env overrides : dict) : dict :=
  delete "PYTHONPATH" (overrides ∪ base_env).

(** Section 4.2 of the specification, in its words: the options per
    platform class. *)
Definition spawn_policy (sys_platform : string) : gmap string pyvalue :=
  if Platform.is_windows sys_platform
  then {[ "creationflags" := PyInt CREATE_NO_WINDOW ]}
  else if Platform.is_linux sys_platform
  then {[ "preexec_fn" := PyCallable set_pdeathsig ]}
  else ∅.

(** ** Concurrent launches

    [create_process] is a coroutine with a single suspension point, the
    [await] of line 183.  The event loop runs one coroutine at a time and
    switches only at that point; lines 186-190 contain no [await]. *)

Inductive coroutine : Type :=
| Pending (r : Request)                  (* not started *)
| Awaiting (p : outcome Process)         (* suspended at the await *)
| Finished (res : outcome Process).

Section EventLoop.

Variable sys_platform : string.
Variable os_exec : list exec_call -> exec_call -> pyerror + Z.
Variable kernel : win32.Kernel.

(** Run a coroutine up to its next suspension point. *)
Definition advance (c : coroutine) (w : World) : coroutine * World :=
  match c with
  | Pending r =>
      let '(res, w') := create_process_spawn sys_platform os_exec r w in
      (Awaiting res, w')
  | Awaiting (Return p) =>
      let '(res, w') := create_process_resume sys_platform kernel p w in
      (Finished res, w')
  | Awaiting (Raise e) => (Finished (Raise e), w)
  | Finished res => (Finished res, w)
  end.

(** Two tasks on one loop; the schedule says which one runs next
    ([true]: the first). *)
Fixpoint run_loop (schedule : list bool) (a b : coroutine) (w : World)
  : coroutine * coroutine * World :=
  match schedule with
  | [] => (a, b, w)
  | true :: rest => let '(a', w') := advance a w in run_loop rest a' b w'
  | false :: rest => let '(b', w') := advance b w in run_loop rest a b' w'
  end.

End EventLoop.

(** The child of a finished launch is a member of the process-wide job. *)
Definition attached (s : win32.State) (p : Process) : Prop :=
  exists j, win32.job s = Some j /\ In (j, pid p) (win32.members s).

(** At most the process-wide job has been created. *)
Definition single_job (s : win32.State) : Prop :=
  match win32.job s with
  | Some j => win32.created s = [j]
  | None => win32.created s = []
  end.

(** The kernel grants job creation and every assignment. *)
Definition grants (k : win32.Kernel) : Prop :=
  is_Some (win32.CreateJobObject k) /\
  forall j child, win32.AssignProcessToJobObject k j child = true.

(** A finished task that started a child has that child in the job. *)
Definition supervised (s : win32.State) (c : coroutine) : Prop :=
  match c with
  | Finished (Return h) => attached s h
  | _ => True
  end.

(** What every step of the event loop keeps true of two tasks. *)
Definition loop_invariant (kernel : win32.Kernel) (a b : coroutine) (w : World)
  : Prop :=
  single_job (jobs w) /\
  (grants kernel -> supervised (jobs w) a /\ supervised (jobs w) b).

(** ** Long-path archive extraction (lines 193-206) *)

Module Zip.
Section Extract.

(** Archive entries, passwords and the result of writing an entry. *)
Variables (ZipInfo Pwd Written : Type).

(** [os.path.abspath] (standard library; depends on the working
    directory). *)
Variable abspath : string -> string.

(** A class with the one method the module overrides. *)
Record zip_class : Type := MkZipClass {
  _extract_member : ZipInfo -> string -> Pwd -> Written
}.

(** [zipfile.ZipFile], the standard extractor. *)
Variable zipfile_ZipFile : zip_class.

(** Lines 198-202: the target path handed on by the override. *)
Definition long_targetpath (targetpath : string) : string :=
  let targetpath := abspath targetpath in
  if PyStr.startswith targetpath "\\"
  then "\\?\UNC\" ++ PyStr.slice_from 2 targetpath
  else "\\?\" ++ targetpath.

(** [class LongPathZipFile(zipfile.ZipFile)] *)
Definition LongPathZipFile : zip_class :=
  {| _extract_member := fun member targetpath pwd =>
       _extract_member zipfile_ZipFile member (long_targetpath targetpath) pwd |}.

(** Line 206: the exported [ZipFile]. *)
Definition ZipFile (sys_platform : string) : zip_class :=
  if Platform.is_windows sys_platform then LongPathZipFile else zipfile_ZipFile.

(** [ZipFile.extractall] of the standard library, inherited unchanged:
    every member goes through [self._extract_member] with the same
    destination. *)
Definition extractall (cls : zip_class) (members : list ZipInfo)
    (path : string) (pwd : Pwd) : list Written :=
  map (fun zipinfo => _extract_member cls zipinfo path pwd) members.

End Extract.

(** A Windows absolute path: a UNC or device root, or a drive letter
    followed by a colon. *)
Definition nt_absolute (s : string) : bool :=
  PyStr.startswith s "\\"
  || match s with
     | String _ (String c _) => Ascii.eqb c ":"
     | _ => false
     end.

(** Undo the extended-length prefix. *)
Definition strip_long (s : string) : string :=
  if PyStr.startswith s "\\?\UNC\"
  then "\\" ++ PyStr.slice_from 8 s
  else PyStr.slice_from 4 s.

End Zip.

(** ** A concrete host: the scenario of section 8 *)

Module Scenario.

Definition environ : dict :=
  {[ "PYTHONPATH" := "/host/libs"; "PATH" := "/usr/bin" ]}.

Definition extra : dict :=
  {[ "PYTHONPATH" := ""; "MODE" := "prod" ]}.

Definition host : World :=
  {| objects := {[ 1%positive := environ; 2%positive := extra ]};
     os_environ := 1%positive;
     spawned := [];
     jobs := win32.initial |}.

Definition request : Request :=
  {| program := "worker"; args := ["--port"; "9000"]; cwd := None;
     additional_env := Some 2%positive; pipe_stderr := false |}.

(** A second host and request, with separate standard error. *)
Definition dev_host : World :=
  {| objects := {[ 1%positive := {[ "MODE" := "dev" ]};
                   2%positive := {[ "MODE" := "prod" ]} ]};
     os_environ := 1%positive;
     spawned := [];
     jobs := win32.initial |}.

(** A request for a program that is not installed. *)
Definition missing_request : Request :=
  {| program := "no-such-worker"; args := ["--port"; "9000"]; cwd := None;
     additional_env := None; pipe_stderr := false |}.

Definition piped_request : Request :=
  {| program := "worker"; args := []; cwd := None;
     additional_env := Some 2%positive; pipe_stderr := true |}.

(** The string holds a NUL character. *)
Fixpoint has_nul (s : string) : bool :=
  match s with
  | EmptyString => false
  | String c s' => Ascii.eqb c Ascii.zero || has_nul s'
  end.

(** A request whose program name holds a NUL character. *)
Definition nul_request : Request :=
  {| program := String Ascii.zero "worker"; args := ["--port"; "9000"];
     cwd := None; additional_env := None; pipe_stderr := false |}.

(** A system on which only [worker] can be started; a program name with
    a NUL character is rejected with [ValueError] before the operating
    system is asked. *)
Definition os_exec (earlier : list exec_call) (c : exec_call) : pyerror + Z :=
  if has_nul (ex_program c) then inl ValueError
  else if String.eqb (ex_program c) "worker"
  then inr (4000 + Z.of_nat (length earlier))
  else inl (RaisedOSError
              {| errno := 2; strerror := "No such file or directory" |}).

(** A kernel that grants every job request. *)
Definition kernel : win32.Kernel :=
  {| win32.CreateJobObject := Some 7;
     win32.AssignProcessToJobObject := fun _ _ => true |}.

(** A kernel that refuses to put processes into jobs. *)
Definition strict_kernel : win32.Kernel :=
  {| win32.CreateJobObject := Some 7;
     win32.AssignProcessToJobObject := fun _ _ => false |}.

(** Two tasks taking turns. *)
Definition alternate : list bool := [true; false; true; false].

(** [os.path.abspath] in the working directory [C:\krita]. *)
Definition abspath (path : string) : string :=
  if Zip.nt_absolute path then path else "C:\krita\" ++ path.

(** An extractor that reports where it would write which entry. *)
Definition recorder : Zip.zip_class string unit (string * string) :=
  {| Zip._extract_member := fun member targetpath _ => (targetpath, member) |}.

End Scenario.

(** ** The pure helpers of the module (lines 93-148) *)

(** Result of a helper: a value, a raised exception, or the step bound of
    a loop reached before the loop ended. *)
Inductive result (A : Type) : Type :=
| Ok (a : A)
| Err (e : pyerror)
| Unfinished.
Arguments Ok {A} a.
Arguments Err {A} e.
Arguments Unfinished {A}.

Module Batched.
Section Batched.

Context {A : Type}.

(** [sys.maxsize], the largest stop value [islice] accepts. *)
Variable sys_maxsize : Z.

(** [tuple(islice(it, n))] on an iterator with the items [it] left: the
    tuple, and what the iterator has left afterwards. *)
Definition islice (it : list A) (n : nat) : list A * list A :=
  (take n it, drop n it).

(** Lines 95-96: the [while] loop, with a bound on its iterations. *)
Fixpoint batched_loop (bound : nat) (it : list A) (n : nat)
  : option (list (list A)) :=
  match bound with
  | O => None
  | S bound' =>
      let '(batch, it') := islice it n in
      match batch with
      | [] => Some []
      | _ :: _ => cons batch <$> batched_loop bound' it' n
      end
  end.

(** [batched(iterable, n)], consumed to the end: the batches it yields.
    [islice] rejects a stop value outside [0 .. sys.maxsize]. *)
Definition batched (iterable : list A) (n : Z) : result (list (list A)) :=
  if (n <? 0) || (sys_maxsize <? n) then Err ValueError
  else match batched_loop (S (length iterable)) iterable (Z.to_nat n) with
       | Some batches => Ok batches
       | None => Unfinished
       end.

End Batched.
End Batched.

Module Prompt.

(** A Python [str] as its code points. *)
Definition str (s : string) : list N :=
  map N_of_ascii (list_ascii_of_string s).

Section Prompt.

(** [c.isalnum()] for a one-character string. *)
Variable isalnum : N -> bool.

(** The test of line 116: [c.isalnum() or c in " _-"]. *)
Definition keeps (c : N) : bool :=
  isalnum c || bool_decide (c ∈ str " _-").

(** [sanitize_prompt] (lines 112-116) *)
Definition sanitize_prompt (prompt : list N) : list N :=
  if bool_decide (prompt = []) then str "no prompt"
  else
    let prompt := take 40 prompt in
    List.filter keeps prompt.

End Prompt.

(** [isalnum] on the ASCII range: digits and letters. *)
Definition ascii_isalnum (c : N) : bool :=
  ((48 <=? c) && (c <=? 57) || (65 <=? c) && (c <=? 90)
   || (97 <=? c) && (c <=? 122))%N.

End Prompt.

Module UnusedPath.
Section UnusedPath.

(** [pathlib.Path] values with the operations the function uses.
    [exists] gives the file system's answer, or raises the [OSError] it
    does not swallow (a name that is too long, for one).  [with_name]
    raises [ValueError] for a path without a name and for a name that is
    not a single path component; that is its [None]. *)
Variable Path : Type.
Variable path_exists : Path -> OSError + bool.
Variable path_stem : Path -> string.
Variable path_suffix : Path -> string.
Variable with_name : Path -> string -> option Path.

(** The path tried for the number [i]: [path.with_name(f"{stem}-{i}{ext}")]. *)
Definition candidate (path : Path) (i : nat) : option Path :=
  let stem := path_stem path in
  let ext := path_suffix path in
  with_name path (stem ++ "-" ++ pretty i ++ ext).

(** Lines 125-128: the [while] loop from the counter [i], with a bound
    on its iterations. *)
Fixpoint find_unused_loop (bound : nat) (path : Path) (i : nat) : result Path :=
  match bound with
  | O => Unfinished
  | S bound' =>
      match candidate path i with
      | None => Err ValueError
      | Some new_path =>
          match path_exists new_path with
          | inl e => Err (RaisedOSError e)
          | inr true => find_unused_loop bound' path (S i)
          | inr false => Ok new_path
          end
      end
  end.

(** [find_unused_path] (lines 119-128) *)
Definition find_unused_path (bound : nat) (path : Path) : result Path :=
  match path_exists path with
  | inl e => Err (RaisedOSError e)
  | inr false => Ok path
  | inr true => find_unused_loop bound path 1
  end.

End UnusedPath.

(** A directory [out] holding [image.png] and its first two numbered
    copies; paths are written as strings, and a path of more than 255
    characters is refused by the file system. *)
Definition disk : list string :=
  ["out/image.png"; "out/image-1.png"; "out/image-2.png"].
Definition on_disk (path : string) : OSError + bool :=
  if (255 <? String.length path)%nat
  then inl {| errno := 36; strerror := "File name too long" |}
  else inr (bool_decide (path ∈ disk)).
Definition image_stem (_ : string) : string := "image".
Definition image_suffix (_ : string) : string := ".png".
Definition in_out (_ : string) (name : string) : option string :=
  Some ("out/" ++ name).

End UnusedPath.

Module PathDict.

(** The values of the nested dictionary: an original path string at a
    leaf, a dictionary below a directory name. *)
#[warnings="-register-all"]
Inductive node : Type :=
| Leaf (full_path : string)
| Dir (children : gmap string node).

(** [_recurse] (lines 135-143).  [dic.setdefault(key, {})] gives the
    value already stored under [key]; when that is a path string, the
    recursive call fails on it: item assignment raises [TypeError],
    [setdefault] raises [AttributeError]. *)
Fixpoint _recurse (dic : gmap string node) (chain : list string)
    (full_path : string) : result (gmap string node) :=
  match chain with
  | [] => Ok dic
  | key :: new_chain =>
      match new_chain with
      | [] => Ok (<[key := Leaf full_path]> dic)
      | _ :: rest =>
          match dic !! key with
          | Some (Leaf _) =>
              match rest with
              | [] => Err TypeError
              | _ :: _ => Err AttributeError
              end
          | Some (Dir sub) =>
              match _recurse sub new_chain full_path with
              | Ok sub' => Ok (<[key := Dir sub']> dic)
              | Err e => Err e
              | Unfinished => Unfinished
              end
          | None =>
              match _recurse ∅ new_chain full_path with
              | Ok sub' => Ok (<[key := Dir sub']> dic)
              | Err e => Err e
              | Unfinished => Unfinished
              end
          end
      end
  end.

Section PathDict.

(** [Path(path).parts] *)
Variable parts : string -> list string.

(** The [for] loop of lines 146-147 from a given dictionary. *)
Fixpoint add_paths (dic : gmap string node) (paths : list string)
  : result (gmap string node) :=
  match paths with
  | [] => Ok dic
  | path :: paths' =>
      match _recurse dic (parts path) path with
      | Ok dic' => add_paths dic' paths'
      | Err e => Err e
      | Unfinished => Unfinished
      end
  end.

(** [get_path_dict] (lines 131-148) *)
Definition get_path_dict (paths : list string) : result (gmap string node) :=
  let new_path_dict : gmap string node := ∅ in
  add_paths new_path_dict paths.

End PathDict.

(** Reading the tree: the path string stored at [d[k1][k2]...[kn]], if
    that position holds one. *)
Fixpoint leaf_at (dic : gmap string node) (chain : list string)
  : option string :=
  match chain with
  | [] => None
  | key :: rest =>
      match dic !! key with
      | Some (Leaf s) => match rest with [] => Some s | _ :: _ => None end
      | Some (Dir sub) => leaf_at sub rest
      | None => None
      end
  end.

(** One chain continues the other. *)
Definition related (c1 c2 : list string) : Prop :=
  c1 `prefix_of` c2 \/ c2 `prefix_of` c1.

(** No chain is empty and no chain continues another one of the list. *)
Fixpoint independent (chains : list (list string)) : Prop :=
  match chains with
  | [] => True
  | c :: cs =>
      c <> [] /\ Forall (fun c' => ~ related c c') cs /\ independent cs
  end.

(** The parts of a relative path written with forward slashes. *)
Fixpoint split_slash (part s : string) : list string :=
  match s with
  | EmptyString => [part]
  | String c s' =>
      if Ascii.eqb c "/"
      then part :: split_slash "" s'
      else split_slash (part ++ String c "") s'
  end.
Definition slash_parts (path : string) : list string :=
  match path with
  | EmptyString => []
  | _ => split_slash "" path
  end.

End PathDict.

(** * Properties *)

(** ** The environment builder, step by step *)

Lemma deref_insert_eq (h : store) (l : loc) (d : dict) :
  PyDict.deref (<[l := d]> h) l = d.
Proof. unfold PyDict.deref. by rewrite lookup_insert_eq. Qed.

Lemma deref_insert_ne (h : store) (l l' : loc) (d : dict) :
  l ≠ l' -> PyDict.deref (<[l := d]> h) l' = PyDict.deref h l'.
Proof. intros Hne. unfold PyDict.deref. by rewrite lookup_insert_ne. Qed.

Lemma fresh_not_live (h : store) (l : loc) :
  is_Some (h !! l) -> fresh (dom h) ≠ l.
Proof.
  intros Hl Heq. apply elem_of_dom in Hl. rewrite <- Heq in Hl.
  by apply is_fresh in Hl.
Qed.

(** Lines 177-178 on a dictionary value. *)
Lemma del_if_present (h : store) (l : loc) (d : dict) (key : string) :
  (if PyDict.contains (<[l := d]> h) l key
   then PyDict.del (<[l := d]> h) l key
   else <[l := d]> h) = <[l := delete key d]> h.
Proof.
  unfold PyDict.contains, PyDict.del. rewrite deref_insert_eq.
  case_bool_decide as Hk.
  - by rewrite insert_insert_eq.
  - f_equal. symmetry. apply delete_id.
    destruct (d !! key) eqn:E; [exfalso; apply Hk; eauto | done].
Qed.

(** The environment builder never raises; it allocates one dictionary,
    which holds the sanitized mapping, and changes nothing else. *)
Lemma create_process_env_run (w : World) (r : Request) :
  request_live w r ->
  create_process_env (additional_env r) w =
    (Return (fresh (dom (objects w))),
     with_objects w
       (<[fresh (dom (objects w)) := sanitize (host_environ w) (overrides w r)]>
          (objects w))).
Proof.
  intros Hlive.
  unfold create_process_env, sanitize, host_environ, overrides, request_live in *.
  unfold mbind, M_bind, mret, M_ret, get_environ, get_objects, set_objects,
    skip, PyDict.copy, with_objects; simpl.
  set (h := objects w) in *. set (env := fresh (dom h)).
  set (B := PyDict.deref h (os_environ w)).
  destruct (additional_env r) as [other|]; simpl.
  - assert (Hne : env ≠ other) by (by apply fresh_not_live).
    rewrite (deref_insert_ne _ _ _ _ Hne).
    case_bool_decide as Hempty; simpl.
    + rewrite Hempty, (left_id_L ∅ (∪)). simpl.
      unfold mret, M_ret; simpl.
      rewrite <- (del_if_present h env B "PYTHONPATH").
      by destruct (PyDict.contains _ _ _).
    + unfold PyDict.update.
      rewrite (deref_insert_ne _ _ _ _ Hne), deref_insert_eq, insert_insert_eq.
      rewrite <- (del_if_present h env _ "PYTHONPATH").
      by destruct (PyDict.contains _ _ _).
  - rewrite (left_id_L ∅ (∪)).
    unfold mret, M_ret; simpl.
    rewrite <- (del_if_present h env B "PYTHONPATH").
    by destruct (PyDict.contains _ _ _).
Qed.

(** Lines 177-178 leave no search-path entry, whatever the dictionary
    held. *)
Lemma no_key_after_del (h : store) (l : loc) (key : string) :
  PyDict.deref (if PyDict.contains h l key then PyDict.del h l key else h) l
    !! key = None.
Proof.
  unfold PyDict.contains. case_bool_decide as Hk.
  - unfold PyDict.del. rewrite deref_insert_eq. apply lookup_delete_eq.
  - destruct (PyDict.deref h l !! key) eqn:E; [exfalso; apply Hk; eauto | done].
Qed.

(** Without any assumption on the request: the builder returns a
    reference to a dictionary without the search-path key and touches the
    object store only. *)
Lemma create_process_env_total (additional : option loc) (w : World) :
  exists env h',
    create_process_env additional w = (Return env, with_objects w h') /\
    PyDict.deref h' env !! "PYTHONPATH" = None.
Proof.
  unfold create_process_env.
  unfold mbind, M_bind, mret, M_ret, get_environ, get_objects, set_objects,
    skip, PyDict.copy, with_objects; simpl.
  destruct (PyDict.truthy _ additional); [destruct additional|]; simpl;
    unfold mret, M_ret; simpl;
    match goal with
    | |- context [PyDict.contains ?h ?l ?k] =>
        pose proof (no_key_after_del h l k) as Hgone;
        destruct (PyDict.contains h l k); simpl; eauto
    end.
Qed.

(** ** One launch, from request to outcome *)

Section Launch.

Variable sys_platform : string.
Variable os_exec : list exec_call -> exec_call -> pyerror + Z.
Variable kernel : win32.Kernel.

(** The whole of [create_process]: one spawn request built from the
    request fields, whose answer decides the outcome; on Windows a
    spawned child is handed to the job attachment. *)
Lemma create_process_run (w : World) (r : Request) :
  exists env h',
    create_process_env (additional_env r) w = (Return env, with_objects w h') /\
    PyDict.deref h' env !! "PYTHONPATH" = None /\
    let c := {| ex_program := program r; ex_args := args r; ex_cwd := cwd r;
                ex_stdin := None; ex_stdout := Some PIPE;
                ex_stderr := Some (if pipe_stderr r then PIPE else STDOUT);
                ex_env := PyDict.deref h' env;
                ex_platform := create_process_platform_args sys_platform |} in
    create_process sys_platform os_exec kernel r w =
      match os_exec (spawned w) c with
      | inl e =>
          (Raise e,
           {| objects := h'; os_environ := os_environ w;
              spawned := c :: spawned w; jobs := jobs w |})
      | inr child =>
          (Return (asyncio_process child c),
           {| objects := h'; os_environ := os_environ w;
              spawned := c :: spawned w;
              jobs := if Platform.is_windows sys_platform
                      then win32.attach_process_to_job kernel child (jobs w)
                      else jobs w |})
      end.
Proof.
  destruct (create_process_env_total (additional_env r) w)
    as (env & h' & Henv & Hgone).
  exists env, h'. split; [exact Henv|]. split; [exact Hgone|].
  unfold create_process, create_process_spawn, create_process_resume.
  unfold mbind, M_bind. rewrite Henv.
  unfold get_objects, create_subprocess_exec, with_objects; simpl.
  destruct (os_exec _ _) as [e|child]; [reflexivity|].
  unfold attach_process_to_job, skip, mret, M_ret.
  destruct (Platform.is_windows sys_platform); reflexivity.
Qed.

End Launch.

(** Lines 168-172 compute the policy of section 4.2. *)
Lemma create_process_platform_args_policy (sys_platform : string) :
  create_process_platform_args sys_platform = spawn_policy sys_platform.
Proof.
  unfold create_process_platform_args, spawn_policy, Platform.is_linux.
  destruct (Platform.is_windows sys_platform); simpl; [reflexivity|].
  destruct (Platform.is_macos sys_platform); reflexivity.
Qed.

(** ** The child's environment *)

Lemma scenario_live : request_live Scenario.host Scenario.request.
Proof. unfold request_live; simpl. eexists. reflexivity. Qed.

Lemma scenario_environ : host_environ Scenario.host = Scenario.environ.
Proof. reflexivity. Qed.

Lemma scenario_overrides :
  overrides Scenario.host Scenario.request = Scenario.extra.
Proof. reflexivity. Qed.

(** A non-empty override mapping comes from a live dictionary. *)
Lemma overrides_live (w : World) (r : Request) (key value : string) :
  overrides w r !! key = Some value -> request_live w r.
Proof.
  unfold overrides, request_live, PyDict.deref.
  destruct (additional_env r) as [l|]; [|done].
  destruct (objects w !! l); [eauto|]. simpl. by rewrite lookup_empty.
Qed.

(** Under liveness the launch issues one call whose environment is the
    sanitized mapping, and stores that mapping in a fresh dictionary. *)
Lemma create_process_child_env sys_platform os_exec kernel (w : World) (r : Request) :
  request_live w r ->
  let w' := world_after (create_process sys_platform os_exec kernel r) w in
  exists c,
    spawned w' = c :: spawned w /\
    ex_env c = sanitize (host_environ w) (overrides w r) /\
    objects w' =
      <[fresh (dom (objects w)) := sanitize (host_environ w) (overrides w r)]>
        (objects w) /\
    os_environ w' = os_environ w.
Proof.
  intros Hlive.
  destruct (create_process_run sys_platform os_exec kernel w r)
    as (env & h' & Henv & _ & Hrun).
  rewrite (create_process_env_run w r Hlive) in Henv.
  injection Henv as <- <-. simpl in Hrun.
  rewrite deref_insert_eq in Hrun.
  unfold world_after. simpl. rewrite Hrun.
  destruct (os_exec _ _); simpl; eexists; repeat split; reflexivity.
Qed.

(** C1. Whatever the host environment and the overrides hold, the
    environment handed to the child has no [PYTHONPATH] entry.  For the
    overrides [{PYTHONPATH: "", MODE: "prod"}] on a host that sets
    [PYTHONPATH=/host/libs], it has no [PYTHONPATH] and maps [MODE] to
    ["prod"]. *)
Theorem child_env_never_has_pythonpath
    sys_platform os_exec kernel (w : World) (r : Request) :
  let w' := world_after (create_process sys_platform os_exec kernel r) w in
  exists c,
    spawned w' = c :: spawned w /\
    ex_env c !! "PYTHONPATH" = None /\
    (host_environ w !! "PYTHONPATH" = Some "/host/libs" ->
     overrides w r = {[ "PYTHONPATH" := ""; "MODE" := "prod" ]} ->
     ex_env c !! "PYTHONPATH" = None /\ ex_env c !! "MODE" = Some "prod").
Proof.
  destruct (create_process_run sys_platform os_exec kernel w r)
    as (env & h' & Henv & Hgone & Hrun).
  simpl in Hrun. unfold world_after. simpl. rewrite Hrun.
  assert (Hscen :
    host_environ w !! "PYTHONPATH" = Some "/host/libs" ->
    overrides w r = {[ "PYTHONPATH" := ""; "MODE" := "prod" ]} ->
    PyDict.deref h' env !! "MODE" = Some "prod").
  { intros _ HO.
    assert (Hlive : request_live w r).
    { apply (overrides_live w r "MODE" "prod"). by rewrite HO. }
    rewrite (create_process_env_run w r Hlive) in Henv.
    injection Henv as <- <-. rewrite deref_insert_eq.
    unfold sanitize. rewrite lookup_delete_ne by done.
    apply lookup_union_Some_l. by rewrite HO. }
  destruct (os_exec _ _); simpl; eexists; (split; [reflexivity|]);
    (split; [exact Hgone|]); intros HB HO; (split; [exact Hgone|]); auto.
Qed.

Lemma child_env_never_has_pythonpath_witness :
  exists c,
    spawned (world_after
               (create_process "linux" Scenario.os_exec Scenario.kernel
                  Scenario.request) Scenario.host) = [c] /\
    ex_env c !! "PYTHONPATH" = None /\ ex_env c !! "MODE" = Some "prod".
Proof.
  destruct (child_env_never_has_pythonpath "linux" Scenario.os_exec
              Scenario.kernel Scenario.host Scenario.request)
    as (c & Hc & Hgone & Hscen).
  exists c. split; [exact Hc|]. apply Hscen; reflexivity.
Defined.

(** C2, as stated, fails for the search-path key: on the scenario host
    [PYTHONPATH] is set by the host and by the overrides, and the child's
    environment does not map it to the override value. *)
Lemma overrides_lose_on_pythonpath :
  host_environ Scenario.host !! "PYTHONPATH" = Some "/host/libs" /\
  overrides Scenario.host Scenario.request !! "PYTHONPATH" = Some "" /\
  exists c,
    spawned (world_after
               (create_process "linux" Scenario.os_exec Scenario.kernel
                  Scenario.request) Scenario.host) = [c] /\
    ex_env c !! "PYTHONPATH" = None /\
    ex_env c !! "PYTHONPATH"
      <> overrides Scenario.host Scenario.request !! "PYTHONPATH".
Proof.
  split; [reflexivity|]. split; [reflexivity|].
  destruct (create_process_child_env "linux" Scenario.os_exec Scenario.kernel
              Scenario.host Scenario.request scenario_live)
    as (c & Hc & Henv & _).
  exists c. split; [exact Hc|].
  assert (Hnone : ex_env c !! "PYTHONPATH" = None).
  { rewrite Henv. unfold sanitize. apply lookup_delete_eq. }
  split; [exact Hnone|]. rewrite Hnone. discriminate.
Qed.

(** C2 (amended). For every key other than [PYTHONPATH] that both the
    host environment and the overrides define, the child's environment
    maps it to the override value. *)
Theorem overrides_win_except_pythonpath
    sys_platform os_exec kernel (w : World) (r : Request) (k : string) :
  k <> "PYTHONPATH" ->
  is_Some (host_environ w !! k) ->
  is_Some (overrides w r !! k) ->
  let w' := world_after (create_process sys_platform os_exec kernel r) w in
  exists c,
    spawned w' = c :: spawned w /\
    ex_env c !! k = overrides w r !! k.
Proof.
  intros Hk _ [v Hv].
  destruct (create_process_child_env sys_platform os_exec kernel w r
              (overrides_live w r k v Hv)) as (c & Hc & Henv & _).
  exists c. split; [exact Hc|].
  rewrite Henv. unfold sanitize. rewrite lookup_delete_ne by done.
  rewrite Hv. by apply lookup_union_Some_l.
Qed.

Lemma overrides_win_except_pythonpath_witness :
  exists c,
    spawned (world_after
               (create_process "win32" Scenario.os_exec Scenario.kernel
                  Scenario.piped_request) Scenario.dev_host) = [c] /\
    ex_env c !! "MODE" = Some "prod".
Proof.
  destruct (overrides_win_except_pythonpath "win32" Scenario.os_exec
              Scenario.kernel Scenario.dev_host Scenario.piped_request "MODE")
    as (c & Hc & Hk).
  - discriminate.
  - eexists; reflexivity.
  - eexists; reflexivity.
  - exists c. split; [exact Hc|]. rewrite Hk. reflexivity.
Defined.

(** ** Stream wiring *)

(** C3. Every launch asks for a pipe on standard output; it asks for a
    separate pipe on standard error exactly when [pipe_stderr] is set and
    otherwise redirects standard error into standard output.  The handle
    of a started child has a standard-output reader, and a standard-error
    reader exactly when [pipe_stderr] is set. *)
Theorem stdout_piped_and_stderr_by_flag
    sys_platform os_exec kernel (w : World) (r : Request) :
  let w' := world_after (create_process sys_platform os_exec kernel r) w in
  let res := result_of (create_process sys_platform os_exec kernel r) w in
  exists c,
    spawned w' = c :: spawned w /\
    ex_stdout c = Some PIPE /\
    ex_stderr c = Some (if pipe_stderr r then PIPE else STDOUT) /\
    (ex_stderr c = Some PIPE <-> pipe_stderr r = true) /\
    match res with
    | Return h =>
        stdout h = Some (StreamReader (pid h) 1) /\
        stderr h = if pipe_stderr r then Some (StreamReader (pid h) 2) else None
    | Raise _ => True
    end.
Proof.
  destruct (create_process_run sys_platform os_exec kernel w r)
    as (env & h' & _ & _ & Hrun).
  simpl in Hrun. unfold world_after, result_of. simpl. rewrite Hrun.
  destruct (os_exec _ _); simpl; eexists; (split; [reflexivity|]); simpl;
    (split; [reflexivity|]); (split; [reflexivity|]);
    destruct (pipe_stderr r); simpl; intuition congruence.
Qed.



(** ** Spawn options *)

(** C4. The platform options of a launch are those of the policy of
    section 4.2 and depend on [sys.platform] alone: the no-window creation
    flag where [is_windows] holds, the parent-death-signal hook as
    [preexec_fn] where [is_linux] holds, and nothing otherwise. *)
Theorem platform_args_by_platform
    sys_platform os_exec kernel (w : World) (r : Request) :
  let w' := world_after (create_process sys_platform os_exec kernel r) w in
  exists c,
    spawned w' = c :: spawned w /\
    ex_platform c = spawn_policy sys_platform /\
    (Platform.is_windows sys_platform = true ->
     ex_platform c = {[ "creationflags" := PyInt CREATE_NO_WINDOW ]}) /\
    (Platform.is_linux sys_platform = true ->
     ex_platform c = {[ "preexec_fn" := PyCallable set_pdeathsig ]}) /\
    (Platform.is_windows sys_platform = false ->
     Platform.is_linux sys_platform = false ->
     ex_platform c = ∅).
Proof.
  destruct (create_process_run sys_platform os_exec kernel w r)
    as (env & h' & _ & _ & Hrun).
  simpl in Hrun. unfold world_after. simpl. rewrite Hrun.
  pose proof (create_process_platform_args_policy sys_platform) as Hpol.
  assert (Hcases :
    (Platform.is_windows sys_platform = true ->
     spawn_policy sys_platform = {[ "creationflags" := PyInt CREATE_NO_WINDOW ]}) /\
    (Platform.is_linux sys_platform = true ->
     spawn_policy sys_platform = {[ "preexec_fn" := PyCallable set_pdeathsig ]}) /\
    (Platform.is_windows sys_platform = false ->
     Platform.is_linux sys_platform = false ->
     spawn_policy sys_platform = ∅)).
  { unfold spawn_policy, Platform.is_linux.
    destruct (Platform.is_windows sys_platform),
             (Platform.is_macos sys_platform); simpl;
      repeat split; intros; congruence. }
  destruct (os_exec _ _); simpl; eexists; (split; [reflexivity|]); simpl;
    rewrite Hpol; (split; [reflexivity|]); exact Hcases.
Qed.

Lemma platform_args_by_platform_witness :
  (exists c,
     spawned (world_after (create_process "win32" Scenario.os_exec
                Scenario.kernel Scenario.request) Scenario.host) = [c] /\
     ex_platform c = {[ "creationflags" := PyInt 134217728 ]}) /\
  (exists c,
     spawned (world_after (create_process "linux" Scenario.os_exec
                Scenario.kernel Scenario.request) Scenario.host) = [c] /\
     ex_platform c = {[ "preexec_fn" := PyCallable set_pdeathsig ]}) /\
  (exists c,
     spawned (world_after (create_process "darwin" Scenario.os_exec
                Scenario.kernel Scenario.request) Scenario.host) = [c] /\
     ex_platform c = ∅).
Proof.
  split; [|split].
  - destruct (platform_args_by_platform "win32" Scenario.os_exec
                Scenario.kernel Scenario.host Scenario.request)
      as (c & Hc & _ & Hwin & _).
    exists c. split; [exact Hc|]. apply Hwin. reflexivity.
  - destruct (platform_args_by_platform "linux" Scenario.os_exec
                Scenario.kernel Scenario.host Scenario.request)
      as (c & Hc & _ & _ & Hlin & _).
    exists c. split; [exact Hc|]. apply Hlin. reflexivity.
  - destruct (platform_args_by_platform "darwin" Scenario.os_exec
                Scenario.kernel Scenario.host Scenario.request)
      as (c & Hc & _ & _ & _ & Hmac).
    exists c. split; [exact Hc|]. apply Hmac; reflexivity.
Defined.

(** The hook asks for [SIGTERM] on the death of the parent. *)
Example set_pdeathsig_call : set_pdeathsig tt = prctl 1 15.
Proof. reflexivity. Qed.

(** The three platform classes are exclusive and cover every value of
    [sys.platform]; the last class is macOS alone. *)
Lemma platform_classes (sys_platform : string) :
  (Platform.is_windows sys_platform = false /\
   Platform.is_linux sys_platform = false) <-> sys_platform = "darwin".
Proof.
  unfold Platform.is_linux, Platform.is_macos.
  destruct (String.eqb_spec sys_platform "darwin") as [->|Hne].
  - split; [reflexivity|]. intros _. split; reflexivity.
  - split; [|contradiction].
    intros [Hw Hl]. rewrite Hw in Hl. discriminate.
Qed.

(** ** Failure of the spawn *)




(** ** Purity of the sanitization *)

(** C8. The child's environment is [sanitize] of the host snapshot and
    the overrides, so two launches with equal snapshots and equal
    overrides give equal environments, whatever else differs; and a
    launch leaves [os.environ], the caller's override dictionary and every
    other dictionary that existed before as they were. *)
Theorem sanitization_pure_and_frame
    p1 os1 k1 p2 os2 k2 (w1 w2 : World) (r1 r2 : Request) :
  environ_live w1 -> request_live w1 r1 -> request_live w2 r2 ->
  host_environ w1 = host_environ w2 ->
  overrides w1 r1 = overrides w2 r2 ->
  let w1' := world_after (create_process p1 os1 k1 r1) w1 in
  let w2' := world_after (create_process p2 os2 k2 r2) w2 in
  exists c1 c2,
    spawned w1' = c1 :: spawned w1 /\
    spawned w2' = c2 :: spawned w2 /\
    ex_env c1 = sanitize (host_environ w1) (overrides w1 r1) /\
    ex_env c1 = ex_env c2 /\
    os_environ w1' = os_environ w1 /\
    host_environ w1' = host_environ w1 /\
    overrides w1' r1 = overrides w1 r1 /\
    (forall l, is_Some (objects w1 !! l) -> objects w1' !! l = objects w1 !! l).
Proof.
  intros Henv Hl1 Hl2 HB HO.
  destruct (create_process_child_env p1 os1 k1 w1 r1 Hl1)
    as (c1 & Hc1 & He1 & Hobj1 & Hos1).
  destruct (create_process_child_env p2 os2 k2 w2 r2 Hl2)
    as (c2 & Hc2 & He2 & _ & _).
  simpl. exists c1, c2.
  assert (Hframe : forall l, is_Some (objects w1 !! l) ->
    objects (world_after (create_process p1 os1 k1 r1) w1) !! l
      = objects w1 !! l).
  { intros l Hl. rewrite Hobj1. apply lookup_insert_ne.
    by apply fresh_not_live. }
  repeat split; try assumption.
  - rewrite He1, He2, HB, HO. reflexivity.
  - unfold host_environ, PyDict.deref. rewrite Hos1.
    by rewrite (Hframe _ Henv).
  - unfold overrides, request_live, PyDict.deref in *.
    destruct (additional_env r1) as [l|]; [|reflexivity].
    by rewrite (Hframe _ Hl1).
Qed.

Lemma sanitization_pure_and_frame_witness :
  exists c1 c2,
    spawned (world_after (create_process "linux" Scenario.os_exec
               Scenario.kernel Scenario.request) Scenario.host) = [c1] /\
    spawned (world_after (create_process "win32" (fun _ _ => inr 1)
               Scenario.strict_kernel Scenario.request) Scenario.host) = [c2] /\
    ex_env c1 = ex_env c2 /\
    host_environ (world_after (create_process "linux" Scenario.os_exec
               Scenario.kernel Scenario.request) Scenario.host)
      = Scenario.environ.
Proof.
  destruct (sanitization_pure_and_frame
              "linux" Scenario.os_exec Scenario.kernel
              "win32" (fun _ _ => inr 1) Scenario.strict_kernel
              Scenario.host Scenario.host Scenario.request Scenario.request)
    as (c1 & c2 & Hc1 & Hc2 & _ & Heq & _ & HB & _).
  - eexists; reflexivity.
  - exact scenario_live.
  - exact scenario_live.
  - reflexivity.
  - reflexivity.
  - exists c1, c2. repeat split; assumption.
Defined.

(** ** Long-path extraction *)

Lemma append_cons (c : ascii) (s t : string) :
  String c s ++ t = String c (s ++ t).
Proof. reflexivity. Qed.

Lemma startswith_split (s pre : string) :
  PyStr.startswith s pre = true ->
  s = pre ++ PyStr.slice_from (String.length pre) s.
Proof.
  revert s. induction pre as [|c pre IH]; intros s H; simpl in *; [reflexivity|].
  destruct s as [|d s]; [discriminate|].
  simpl in H. revert H.
  destruct (Ascii.eqb_spec c d) as [->|]; [|intros; discriminate].
  intros H. rewrite append_cons. f_equal. by apply IH.
Qed.

Lemma startswith_app (pre rest : string) :
  PyStr.startswith (pre ++ rest) pre = true.
Proof.
  induction pre as [|c pre IH]; [reflexivity|].
  rewrite append_cons. simpl. by rewrite Ascii.eqb_refl.
Qed.

Lemma slice_from_app (pre rest : string) :
  PyStr.slice_from (String.length pre) (pre ++ rest) = rest.
Proof. induction pre as [|c pre IH]; [reflexivity|exact IH]. Qed.

(** An absolute Windows path that is not a UNC root does not begin with
    the letters [UNC\]. *)
Lemma nt_absolute_drive (s : string) :
  Zip.nt_absolute s = true ->
  PyStr.startswith s "\\" = false ->
  PyStr.startswith s "UNC\" = false.
Proof.
  unfold Zip.nt_absolute. intros Habs Hunc. rewrite Hunc in Habs. simpl in Habs.
  destruct s as [|c1 [|c2 rest]]; try discriminate.
  apply Ascii.eqb_eq in Habs. subst c2. cbn [PyStr.startswith].
  destruct (Ascii.eqb "U" c1); reflexivity.
Qed.

Section LongPath.

Context {ZipInfo Pwd Written : Type}.
Variable abspath : string -> string.
Variable zipfile_ZipFile : Zip.zip_class ZipInfo Pwd Written.


(** C10. The rewritten path always begins with [\\?\]; and when the
    absolute form of the path is an absolute Windows path (which is
    what [os.path.abspath] returns there), removing the prefix, with
    [\\?\UNC\] turned back into two backslashes, gives back exactly the
    absolute form. *)
Theorem long_targetpath_prefix_and_roundtrip (p : string) :
  PyStr.startswith (Zip.long_targetpath abspath p) "\\?\" = true /\
  (Zip.nt_absolute (abspath p) = true ->
   Zip.strip_long (Zip.long_targetpath abspath p) = abspath p).
Proof.
  unfold Zip.long_targetpath.
  destruct (PyStr.startswith (abspath p) "\\") eqn:Hunc.
  - split; [reflexivity|]. intros _.
    unfold Zip.strip_long.
    rewrite (startswith_app "\\?\UNC\").
    rewrite (slice_from_app "\\?\UNC\").
    symmetry. exact (startswith_split _ _ Hunc).
  - split; [exact (startswith_app "\\?\" _)|]. intros Habs.
    unfold Zip.strip_long.
    assert (Hno : PyStr.startswith ("\\?\" ++ abspath p) "\\?\UNC\" = false).
    { change (PyStr.startswith (abspath p) "UNC\" = false).
      exact (nt_absolute_drive _ Habs Hunc). }
    rewrite Hno. exact (slice_from_app "\\?\" _).
Qed.

End LongPath.


Lemma long_targetpath_prefix_and_roundtrip_witness :
  PyStr.startswith (Zip.long_targetpath Scenario.abspath "unpack") "\\?\" = true /\
  Zip.strip_long (Zip.long_targetpath Scenario.abspath "unpack")
    = "C:\krita\unpack".
Proof.
  destruct (long_targetpath_prefix_and_roundtrip Scenario.abspath "unpack")
    as [Hpre Hback].
  split; [exact Hpre|]. exact (Hback eq_refl).
Defined.

(** The assumption on [abspath] cannot be dropped from the round trip:
    a relative string beginning with [UNC\], which [os.path.abspath] never
    returns, is rewritten to the same text as a UNC root. *)
Remark strip_long_on_relative_text :
  Zip.long_targetpath (fun p => p) "UNC\srv\x" = "\\?\UNC\srv\x" /\
  Zip.long_targetpath (fun p => p) "\\srv\x" = "\\?\UNC\srv\x" /\
  Zip.nt_absolute "UNC\srv\x" = false.
Proof. repeat split; reflexivity. Qed.

(** ** Job attachment under concurrent launches *)

Lemma attach_single_job (k : win32.Kernel) (child : Z) (s : win32.State) :
  single_job s -> single_job (win32.attach_process_to_job k child s).
Proof.
  unfold single_job, win32.attach_process_to_job.
  destruct (win32.job s) as [j|] eqn:Hj; intros Hs.
  - destruct (win32.AssignProcessToJobObject k j child); simpl; by rewrite Hj.
  - destruct (win32.CreateJobObject k) as [j|]; simpl.
    + destruct (win32.AssignProcessToJobObject k j child); simpl; by rewrite Hs.
    + by rewrite ?Hj.
Qed.

Lemma attach_keeps (k : win32.Kernel) (child : Z) (s : win32.State) (h : Process) :
  attached s h -> attached (win32.attach_process_to_job k child s) h.
Proof.
  unfold attached, win32.attach_process_to_job.
  intros (j & Hj & Hin). rewrite Hj.
  destruct (win32.AssignProcessToJobObject k j child); simpl;
    exists j; (split; [exact Hj|]); simpl; auto.
Qed.

Lemma attach_attaches (k : win32.Kernel) (s : win32.State) (h : Process) :
  grants k -> attached (win32.attach_process_to_job k (pid h) s) h.
Proof.
  unfold grants, attached, win32.attach_process_to_job.
  intros [[j0 Hcreate] Hassign].
  destruct (win32.job s) as [j|] eqn:Hj.
  - rewrite Hassign. simpl. exists j. split; [exact Hj|]. by left.
  - rewrite Hcreate, Hassign. simpl. exists j0. split; [reflexivity|]. by left.
Qed.

Section Loop.

Variable sys_platform : string.
Variable os_exec : list exec_call -> exec_call -> pyerror + Z.
Variable kernel : win32.Kernel.

(** The part before the [await] does not touch the job state. *)
Lemma create_process_spawn_jobs (r : Request) (w : World) :
  jobs (snd (create_process_spawn sys_platform os_exec r w)) = jobs w.
Proof.
  destruct (create_process_env_total (additional_env r) w)
    as (env & h' & Henv & _).
  unfold create_process_spawn, mbind, M_bind. rewrite Henv.
  unfold get_objects, create_subprocess_exec, with_objects; simpl.
  destruct (os_exec _ _); reflexivity.
Qed.

(** On Windows the part after the [await] attaches the child and
    returns the handle. *)
Lemma create_process_resume_windows (h : Process) (w : World) :
  Platform.is_windows sys_platform = true ->
  create_process_resume sys_platform kernel h w =
    (Return h,
     {| objects := objects w; os_environ := os_environ w;
        spawned := spawned w;
        jobs := win32.attach_process_to_job kernel (pid h) (jobs w) |}).
Proof.
  intros Hwin. unfold create_process_resume. rewrite Hwin. reflexivity.
Qed.

(** Running a task through both of its steps is [create_process]. *)
Lemma advance_twice (r : Request) (w : World) :
  (let '(a, w1) := advance sys_platform os_exec kernel (Pending r) w in
   advance sys_platform os_exec kernel a w1)
  = (Finished (result_of (create_process sys_platform os_exec kernel r) w),
     world_after (create_process sys_platform os_exec kernel r) w).
Proof.
  unfold advance, result_of, world_after, create_process, mbind, M_bind.
  destruct (create_process_spawn sys_platform os_exec r w) as [[h|e] w1];
    [|reflexivity].
  destruct (create_process_resume sys_platform kernel h w1); reflexivity.
Qed.

Lemma advance_invariant (a b : coroutine) (w : World) :
  Platform.is_windows sys_platform = true ->
  loop_invariant kernel a b w ->
  let '(a', w') := advance sys_platform os_exec kernel a w in
  loop_invariant kernel a' b w' /\ loop_invariant kernel b a' w'.
Proof.
  intros Hwin [Hone Hsup].
  assert (Hsym : forall x y v, loop_invariant kernel x y v -> loop_invariant kernel y x v).
  { intros x y v [H1 H2]. split; [exact H1|]. intros Hg.
    destruct (H2 Hg). by split. }
  destruct a as [r|[h|e]|res]; simpl.
  - pose proof (create_process_spawn_jobs r w) as Hjobs.
    destruct (create_process_spawn sys_platform os_exec r w) as [res w'].
    simpl in Hjobs.
    assert (Hinv : loop_invariant kernel (Awaiting res) b w').
    { split; rewrite Hjobs; [exact Hone|].
      intros Hg. destruct (Hsup Hg). split; [exact I|assumption]. }
    split; [exact Hinv|by apply Hsym].
  - rewrite (create_process_resume_windows h w Hwin).
    assert (Hinv : loop_invariant kernel (Finished (Return h)) b
      {| objects := objects w; os_environ := os_environ w;
         spawned := spawned w;
         jobs := win32.attach_process_to_job kernel (pid h) (jobs w) |}).
    { split; simpl; [by apply attach_single_job|].
      intros Hg. destruct (Hsup Hg) as [_ Hb]. split.
      - by apply attach_attaches.
      - destruct b as [|[]|[hb|]]; simpl in *; try exact I.
        by apply attach_keeps. }
    split; [exact Hinv|by apply Hsym].
  - assert (Hinv : loop_invariant kernel (Finished (Raise e)) b w).
    { split; [exact Hone|]. intros Hg. destruct (Hsup Hg).
      split; [exact I|assumption]. }
    split; [exact Hinv|by apply Hsym].
  - split; [by split|by apply Hsym].
Qed.

Lemma run_loop_invariant (schedule : list bool) (a b : coroutine) (w : World) :
  Platform.is_windows sys_platform = true ->
  loop_invariant kernel a b w ->
  let '(a', b', w') := run_loop sys_platform os_exec kernel schedule a b w in
  loop_invariant kernel a' b' w'.
Proof.
  intros Hwin. revert a b w.
  induction schedule as [|[|] rest IH]; intros a b w Hinv; simpl.
  - exact Hinv.
  - pose proof (advance_invariant a b w Hwin Hinv) as Hstep.
    destruct (advance sys_platform os_exec kernel a w) as [a' w'].
    apply IH. apply Hstep.
  - assert (Hinv' : loop_invariant kernel b a w).
    { destruct Hinv as [H1 H2]. split; [exact H1|].
      intros Hg. destruct (H2 Hg). by split. }
    pose proof (advance_invariant b a w Hwin Hinv') as Hstep.
    destruct (advance sys_platform os_exec kernel b w) as [b' w'].
    apply IH. apply Hstep.
Qed.

(** The part before the [await] makes one spawn request and passes on
    the answer. *)
Lemma create_process_spawn_step (r : Request) (w : World) :
  exists c h',
    ex_program c = program r /\
    create_process_spawn sys_platform os_exec r w =
      (match os_exec (spawned w) c with
       | inl e => Raise e
       | inr child => Return (asyncio_process child c)
       end,
       {| objects := h'; os_environ := os_environ w;
          spawned := c :: spawned w; jobs := jobs w |}).
Proof.
  destruct (create_process_env_total (additional_env r) w)
    as (env & h' & Henv & _).
  exists {| ex_program := program r; ex_args := args r; ex_cwd := cwd r;
            ex_stdin := None; ex_stdout := Some PIPE;
            ex_stderr := Some (if pipe_stderr r then PIPE else STDOUT);
            ex_env := PyDict.deref h' env;
            ex_platform := create_process_platform_args sys_platform |}, h'.
  split; [reflexivity|].
  unfold create_process_spawn, mbind, M_bind. rewrite Henv.
  unfold get_objects, create_subprocess_exec, with_objects; simpl.
  destruct (os_exec _ _); reflexivity.
Qed.

(** Two launches taking turns on Windows, both started by the operating
    system: both return their handle, and the job state has seen the two
    attachments in the order of the resumptions. *)
Lemma run_loop_taking_turns (r1 r2 : Request) (w : World) :
  Platform.is_windows sys_platform = true ->
  exists c1 c2,
    ex_program c1 = program r1 /\ ex_program c2 = program r2 /\
    forall child1 child2,
      os_exec (spawned w) c1 = inr child1 ->
      os_exec (c1 :: spawned w) c2 = inr child2 ->
      exists w',
        run_loop sys_platform os_exec kernel [true; false; true; false]
          (Pending r1) (Pending r2) w
          = (Finished (Return (asyncio_process child1 c1)),
             Finished (Return (asyncio_process child2 c2)), w') /\
        jobs w' =
          win32.attach_process_to_job kernel child2
            (win32.attach_process_to_job kernel child1 (jobs w)).
Proof.
  intros Hwin.
  destruct (create_process_spawn_step r1 w) as (c1 & h1 & Hp1 & Hs1).
  destruct (create_process_spawn_step r2
              {| objects := h1; os_environ := os_environ w;
                 spawned := c1 :: spawned w; jobs := jobs w |})
    as (c2 & h2 & Hp2 & Hs2).
  exists c1, c2. split; [exact Hp1|]. split; [exact Hp2|].
  intros child1 child2 Ho1 Ho2.
  rewrite Ho1 in Hs1. simpl in Hs2. rewrite Ho2 in Hs2.
  eexists. cbn [run_loop advance]. rewrite Hs1.
  cbn [run_loop advance]. rewrite Hs2.
  cbn [run_loop advance].
  rewrite (create_process_resume_windows _ _ Hwin).
  cbn [run_loop advance].
  rewrite (create_process_resume_windows _ _ Hwin).
  split; reflexivity.
Qed.

End Loop.

(** C9, as stated, fails when the kernel refuses the assignment: two
    concurrent launches both return a handle, one job object has been
    created, and neither child is a member of it. *)
Lemma refused_assignment_leaves_children_unattached :
  exists h1 h2 w',
    run_loop "win32" Scenario.os_exec Scenario.strict_kernel Scenario.alternate
      (Pending Scenario.request) (Pending Scenario.piped_request) Scenario.host
      = (Finished (Return h1), Finished (Return h2), w') /\
    win32.created (jobs w') = [7] /\
    win32.members (jobs w') = [] /\
    ~ attached (jobs w') h1 /\ ~ attached (jobs w') h2.
Proof.
  destruct (run_loop_taking_turns "win32" Scenario.os_exec
              Scenario.strict_kernel Scenario.request Scenario.piped_request
              Scenario.host eq_refl) as (c1 & c2 & Hp1 & Hp2 & Hrun).
  destruct (Hrun 4000 4001) as (w' & Hw' & Hjobs).
  { unfold Scenario.os_exec. rewrite Hp1. reflexivity. }
  { unfold Scenario.os_exec. rewrite Hp2. reflexivity. }
  eexists _, _, w'. split; [exact Hw'|]. rewrite Hjobs.
  split; [reflexivity|]. split; [reflexivity|].
  split; intros (j & _ & Hin); exact Hin.
Qed.

(** C9 (amended). On Windows, two launches interleaved in any order at
    their suspension points never create a second job object; and when
    both have returned a handle and the kernel grants job creation and
    every assignment, exactly one job object exists and both children are
    members of it. *)
Theorem concurrent_launches_share_one_job
    sys_platform os_exec kernel (schedule : list bool)
    (r1 r2 : Request) (w w' : World) (a b : coroutine) :
  Platform.is_windows sys_platform = true ->
  single_job (jobs w) ->
  run_loop sys_platform os_exec kernel schedule (Pending r1) (Pending r2) w
    = (a, b, w') ->
  single_job (jobs w') /\
  (grants kernel ->
   forall h1 h2,
     a = Finished (Return h1) -> b = Finished (Return h2) ->
     exists j,
       win32.job (jobs w') = Some j /\
       win32.created (jobs w') = [j] /\
       In (j, pid h1) (win32.members (jobs w')) /\
       In (j, pid h2) (win32.members (jobs w'))).
Proof.
  intros Hwin Hone Hrun.
  assert (Hinit : loop_invariant kernel (Pending r1) (Pending r2) w).
  { split; [exact Hone|]. intros _. split; exact I. }
  pose proof (run_loop_invariant sys_platform os_exec kernel schedule
                _ _ w Hwin Hinit) as Hinv.
  rewrite Hrun in Hinv. destruct Hinv as [Hone' Hsup].
  split; [exact Hone'|].
  intros Hg h1 h2 -> ->.
  destruct (Hsup Hg) as [(j1 & Hj1 & Hin1) (j2 & Hj2 & Hin2)].
  assert (j2 = j1) as -> by congruence.
  exists j1. repeat split; try assumption.
  unfold single_job in Hone'. by rewrite Hj1 in Hone'.
Qed.

Lemma concurrent_launches_share_one_job_witness :
  exists h1 h2 w',
    run_loop "win32" Scenario.os_exec Scenario.kernel Scenario.alternate
      (Pending Scenario.request) (Pending Scenario.piped_request) Scenario.host
      = (Finished (Return h1), Finished (Return h2), w') /\
    win32.created (jobs w') = [7] /\
    In (7, pid h1) (win32.members (jobs w')) /\
    In (7, pid h2) (win32.members (jobs w')).
Proof.
  destruct (run_loop_taking_turns "win32" Scenario.os_exec
              Scenario.kernel Scenario.request Scenario.piped_request
              Scenario.host eq_refl) as (c1 & c2 & Hp1 & Hp2 & Hrun).
  destruct (Hrun 4000 4001) as (w' & Hw' & Hjobs).
  { unfold Scenario.os_exec. rewrite Hp1. reflexivity. }
  { unfold Scenario.os_exec. rewrite Hp2. reflexivity. }
  destruct (concurrent_launches_share_one_job "win32" Scenario.os_exec
              Scenario.kernel Scenario.alternate
              Scenario.request Scenario.piped_request Scenario.host
              w' _ _ eq_refl eq_refl Hw') as [_ Hboth].
  destruct (Hboth (conj (ex_intro _ 7 eq_refl) (fun _ _ => eq_refl))
              _ _ eq_refl eq_refl)
    as (j & Hj & Hc & H1 & H2).
  eexists _, _, w'. split; [exact Hw'|].
  rewrite Hjobs in Hj. injection Hj as <-. repeat split; assumption.
Defined.

(** * Further properties of the module *)

(** ** [batched] *)

Section BatchedFacts.

Context {A : Type}.

(** With a positive batch size, a bound above the number of items left
    is enough for the loop; the batches concatenate to the items, and
    batch [i] holds the items from position [i * n] on. *)
Lemma batched_loop_spec (n bound : nat) (it : list A) :
  (0 < n)%nat -> (length it < bound)%nat ->
  exists batches,
    Batched.batched_loop bound it n = Some batches /\
    concat batches = it /\
    forall i,
      batches !! i =
        if decide (i * n < length it)%nat
        then Some (take n (drop (i * n) it))
        else None.
Proof.
  intros Hn. revert it.
  induction bound as [|bound IH]; intros it Hlen; [lia|].
  cbn [Batched.batched_loop Batched.islice].
  destruct it as [|x it].
  - exists []. rewrite take_nil.
    split; [reflexivity|]. split; [reflexivity|].
    intros i. rewrite lookup_nil.
    destruct (decide _) as [Hlt|]; [simpl in Hlt; lia|done].
  - destruct n as [|n]; [lia|]. cbn [take].
    destruct (IH (drop (S n) (x :: it))) as (bs & Hbs & Hcat & Hnth).
    { rewrite length_drop. simpl in *. lia. }
    rewrite Hbs. exists (take (S n) (x :: it) :: bs).
    split; [reflexivity|]. split.
    + cbn [concat]. rewrite Hcat. apply take_drop.
    + intros [|i].
      * simpl. reflexivity.
      * cbn [lookup list_lookup]. rewrite Hnth.
        rewrite length_drop, drop_drop.
        replace (S n + i * S n)%nat with (S i * S n)%nat by lia.
        simpl length.
        repeat case_decide; try reflexivity; lia.
Qed.

End BatchedFacts.

(** X1. For a batch size between 1 and [sys.maxsize], [batched] ends
    and the batches, put back together in order, are exactly the items
    of the iterable: nothing is lost, repeated or reordered. *)
Theorem batched_concat {A : Type} (sys_maxsize : Z) (iterable : list A) (n : Z) :
  1 <= n <= sys_maxsize ->
  exists batches,
    Batched.batched sys_maxsize iterable n = Ok batches /\
    concat batches = iterable.
Proof.
  intros Hn. unfold Batched.batched.
  replace ((n <? 0) || (sys_maxsize <? n)) with false
    by (symmetry; apply orb_false_intro; apply Z.ltb_ge; lia).
  destruct (batched_loop_spec (Z.to_nat n) (S (length iterable)) iterable)
    as (bs & Hbs & Hcat & _); [lia..|].
  rewrite Hbs. eauto.
Qed.

Lemma batched_concat_witness :
  Batched.batched (2 ^ 63 - 1) [1; 2; 3; 4; 5] 2 = Ok [[1; 2]; [3; 4]; [5]] /\
  concat [[1; 2]; [3; 4]; [5]] = [1; 2; 3; 4; 5].
Proof.
  destruct (batched_concat (2 ^ 63 - 1) [1; 2; 3; 4; 5] 2) as (bs & Hbs & Hcat).
  - lia.
  - split; reflexivity.
Defined.

(** X2. For a batch size [n] between 1 and [sys.maxsize], batch number
    [i] is the slice of [n] items starting at item [i * n], and there are
    as many batches as the length divided by [n], rounded up; so every
    batch but the last has exactly [n] items and no batch is empty. *)
Theorem batched_nth {A : Type} (sys_maxsize : Z) (iterable : list A) (n : Z) :
  1 <= n <= sys_maxsize ->
  exists batches,
    Batched.batched sys_maxsize iterable n = Ok batches /\
    (forall i,
       batches !! i =
         if decide (i * Z.to_nat n < length iterable)%nat
         then Some (take (Z.to_nat n) (drop (i * Z.to_nat n) iterable))
         else None) /\
    length batches = ((length iterable + Z.to_nat n - 1) / Z.to_nat n)%nat.
Proof.
  intros Hn. unfold Batched.batched.
  replace ((n <? 0) || (sys_maxsize <? n)) with false
    by (symmetry; apply orb_false_intro; apply Z.ltb_ge; lia).
  destruct (batched_loop_spec (Z.to_nat n) (S (length iterable)) iterable)
    as (bs & Hbs & _ & Hnth); [lia..|].
  rewrite Hbs. exists bs. split; [reflexivity|]. split; [exact Hnth|].
  set (m := Z.to_nat n) in *. assert (Hm : (0 < m)%nat) by lia.
  set (len := length iterable) in *.
  assert (Hup : (len <= length bs * m)%nat).
  { pose proof (Hnth (length bs)) as Hk.
    rewrite (lookup_ge_None_2 bs (length bs)) in Hk by lia.
    destruct (decide _); [discriminate|lia]. }
  assert (Hlow : (length bs = 0 \/ (length bs - 1) * m < len)%nat).
  { destruct (length bs) as [|k] eqn:Hk; [by left|right].
    pose proof (Hnth k) as Hlast.
    destruct (lookup_lt_is_Some_2 bs k) as [b Hb]; [lia|].
    rewrite Hb in Hlast. replace (S k - 1)%nat with k by lia.
    destruct (decide _); [lia|discriminate]. }
  apply (Nat.div_unique _ _ _ (len + m - 1 - length bs * m)); nia.
Qed.

Lemma batched_nth_witness :
  exists batches,
    Batched.batched (2 ^ 63 - 1) [1; 2; 3; 4; 5] 2 = Ok batches /\
    batches !! 2%nat = Some [5] /\ length batches = 3%nat.
Proof.
  destruct (batched_nth (2 ^ 63 - 1) [1; 2; 3; 4; 5] 2)
    as (bs & Hbs & Hnth & Hlen); [lia|].
  exists bs. split; [exact Hbs|]. split; [|exact Hlen].
  rewrite Hnth. reflexivity.
Defined.

(** X3. The edges of the batch size: with [n = 0] the generator yields
    nothing, whatever the iterable holds, so the batches no longer add
    up to the items; a negative size, or one above [sys.maxsize], raises
    [ValueError]. *)
Theorem batched_size_edges {A : Type} (sys_maxsize : Z) (iterable : list A) (n : Z) :
  (n = 0 -> 0 <= sys_maxsize ->
   Batched.batched sys_maxsize iterable n = Ok []) /\
  (n < 0 \/ sys_maxsize < n ->
   Batched.batched sys_maxsize iterable n = Err ValueError).
Proof.
  unfold Batched.batched. split.
  - intros -> Hmax.
    replace ((0 <? 0) || (sys_maxsize <? 0)) with false
      by (symmetry; apply orb_false_intro; apply Z.ltb_ge; lia).
    reflexivity.
  - intros Hbad.
    replace ((n <? 0) || (sys_maxsize <? n)) with true; [reflexivity|].
    symmetry. apply orb_true_iff. rewrite !Z.ltb_lt. exact Hbad.
Qed.

Lemma batched_size_edges_witness :
  Batched.batched (2 ^ 63 - 1) ["a"; "b"; "c"] 0 = Ok [] /\
  Batched.batched (2 ^ 63 - 1) ["a"; "b"; "c"] (-1) = Err ValueError.
Proof.
  split.
  - apply (batched_size_edges (2 ^ 63 - 1) ["a"; "b"; "c"] 0); [reflexivity|lia].
  - apply (batched_size_edges (2 ^ 63 - 1) ["a"; "b"; "c"] (-1)). left. lia.
Defined.

(** ** [sanitize_prompt] *)

Section PromptFacts.

Variable isalnum : N -> bool.

Lemma filter_keeps_all (l : list N) :
  Forall (fun c => Prompt.keeps isalnum c = true) l ->
  List.filter (Prompt.keeps isalnum) l = l.
Proof.
  induction 1 as [|c l Hc _ IH]; simpl; [reflexivity|].
  by rewrite Hc, IH.
Qed.

Lemma filter_kept (l : list N) :
  Forall (fun c => Prompt.keeps isalnum c = true)
    (List.filter (Prompt.keeps isalnum) l).
Proof.
  induction l as [|c l IH]; simpl; [constructor|].
  destruct (Prompt.keeps isalnum c) eqn:Hc; [by constructor|exact IH].
Qed.

Lemma filter_sublist (l : list N) :
  List.filter (Prompt.keeps isalnum) l `sublist_of` l.
Proof.
  induction l as [|c l IH]; simpl; [constructor|].
  destruct (Prompt.keeps isalnum c); by constructor.
Qed.

(** X4. The result never has more than 40 characters, for any prompt
    and any reading of [isalnum]. *)
Theorem sanitize_prompt_length (prompt : list N) :
  (length (Prompt.sanitize_prompt isalnum prompt) <= 40)%nat.
Proof.
  unfold Prompt.sanitize_prompt. case_bool_decide.
  - simpl. lia.
  - pose proof (sublist_length _ _ (filter_sublist (take 40 prompt))) as Hle.
    rewrite length_take in Hle. lia.
Qed.

(** X5. For a non-empty prompt the result is a subsequence of its first
    40 characters, in their order, and each of its characters is
    alphanumeric, a space, an underscore or a hyphen. *)
Theorem sanitize_prompt_subsequence (prompt : list N) :
  prompt <> [] ->
  Prompt.sanitize_prompt isalnum prompt `sublist_of` take 40 prompt /\
  Forall (fun c => isalnum c = true \/ c = 32%N \/ c = 95%N \/ c = 45%N)
    (Prompt.sanitize_prompt isalnum prompt).
Proof.
  intros Hne. unfold Prompt.sanitize_prompt.
  rewrite bool_decide_eq_false_2 by exact Hne.
  split; [apply filter_sublist|].
  eapply Forall_impl; [apply filter_kept|].
  intros c Hc. unfold Prompt.keeps in Hc.
  apply orb_true_iff in Hc as [Hc|Hc]; [by left|right].
  apply bool_decide_eq_true in Hc.
  change (Prompt.str " _-") with [32%N; 95%N; 45%N] in Hc.
  rewrite !elem_of_cons in Hc. rewrite elem_of_nil in Hc. tauto.
Qed.

(** X6. A non-empty prompt of at most 40 characters, all of them kept by
    the filter, comes back unchanged. *)
Theorem sanitize_prompt_clean (prompt : list N) :
  prompt <> [] ->
  (length prompt <= 40)%nat ->
  Forall (fun c => Prompt.keeps isalnum c = true) prompt ->
  Prompt.sanitize_prompt isalnum prompt = prompt.
Proof.
  intros Hne Hlen Hall. unfold Prompt.sanitize_prompt.
  rewrite bool_decide_eq_false_2 by exact Hne.
  rewrite take_ge by lia. by apply filter_keeps_all.
Qed.

(** X7. Sanitizing twice is the same as sanitizing once, as long as the
    prompt is not empty and its first result is not empty. *)
Theorem sanitize_prompt_idempotent (prompt : list N) :
  prompt <> [] ->
  Prompt.sanitize_prompt isalnum prompt <> [] ->
  Prompt.sanitize_prompt isalnum (Prompt.sanitize_prompt isalnum prompt)
    = Prompt.sanitize_prompt isalnum prompt.
Proof.
  intros Hne Hres. apply sanitize_prompt_clean.
  - exact Hres.
  - apply sanitize_prompt_length.
  - unfold Prompt.sanitize_prompt.
    rewrite bool_decide_eq_false_2 by exact Hne. apply filter_kept.
Qed.

(** X8. A non-empty prompt without a kept character among its first 40
    gives the empty string, not ["no prompt"]: the placeholder is for the
    empty prompt only, so sanitizing that result again gives
    ["no prompt"]. *)
Theorem sanitize_prompt_all_dropped (prompt : list N) :
  prompt <> [] ->
  Forall (fun c => Prompt.keeps isalnum c = false) (take 40 prompt) ->
  Prompt.sanitize_prompt isalnum prompt = [] /\
  Prompt.sanitize_prompt isalnum (Prompt.sanitize_prompt isalnum prompt)
    = Prompt.str "no prompt".
Proof.
  intros Hne Hall.
  assert (Hempty : Prompt.sanitize_prompt isalnum prompt = []).
  { unfold Prompt.sanitize_prompt.
    rewrite bool_decide_eq_false_2 by exact Hne.
    induction Hall as [|c l Hc _ IH]; simpl; [reflexivity|].
    by rewrite Hc. }
  split; [exact Hempty|]. rewrite Hempty. reflexivity.
Qed.

End PromptFacts.

Lemma sanitize_prompt_subsequence_witness :
  Prompt.sanitize_prompt Prompt.ascii_isalnum (Prompt.str "a cat, on a mat!")
    = Prompt.str "a cat on a mat" /\
  Prompt.sanitize_prompt Prompt.ascii_isalnum (Prompt.str "a cat, on a mat!")
    `sublist_of` take 40 (Prompt.str "a cat, on a mat!").
Proof.
  split; [reflexivity|].
  apply (sanitize_prompt_subsequence Prompt.ascii_isalnum
           (Prompt.str "a cat, on a mat!")).
  vm_compute. discriminate.
Defined.

Lemma sanitize_prompt_clean_witness :
  Prompt.sanitize_prompt Prompt.ascii_isalnum (Prompt.str "red-fox_2 night")
    = Prompt.str "red-fox_2 night".
Proof.
  apply (sanitize_prompt_clean Prompt.ascii_isalnum).
  - vm_compute. discriminate.
  - vm_compute. lia.
  - repeat constructor.
Defined.

Lemma sanitize_prompt_idempotent_witness :
  Prompt.sanitize_prompt Prompt.ascii_isalnum
    (Prompt.sanitize_prompt Prompt.ascii_isalnum (Prompt.str "a cat, on a mat!"))
  = Prompt.sanitize_prompt Prompt.ascii_isalnum (Prompt.str "a cat, on a mat!").
Proof.
  apply (sanitize_prompt_idempotent Prompt.ascii_isalnum).
  - vm_compute. discriminate.
  - vm_compute. discriminate.
Defined.

Lemma sanitize_prompt_all_dropped_witness :
  Prompt.sanitize_prompt Prompt.ascii_isalnum (Prompt.str "?!...") = [] /\
  Prompt.sanitize_prompt Prompt.ascii_isalnum
    (Prompt.sanitize_prompt Prompt.ascii_isalnum (Prompt.str "?!..."))
  = Prompt.str "no prompt".
Proof.
  apply (sanitize_prompt_all_dropped Prompt.ascii_isalnum (Prompt.str "?!...")).
  - vm_compute. discriminate.
  - repeat constructor.
Defined.

(** ** [find_unused_path] *)

Section UnusedPathFacts.

Variable Path : Type.
Variable path_exists : Path -> OSError + bool.
Variable path_stem path_suffix : Path -> string.
Variable with_name : Path -> string -> option Path.

Local Abbreviation candidate :=
  (UnusedPath.candidate Path path_stem path_suffix with_name).
Local Abbreviation find_unused_loop :=
  (UnusedPath.find_unused_loop Path path_exists path_stem path_suffix with_name).
Local Abbreviation find_unused_path :=
  (UnusedPath.find_unused_path Path path_exists path_stem path_suffix with_name).

(** The numbered name [i] can be built and exists. *)
Local Abbreviation taken path i :=
  (exists p, candidate path i = Some p /\ path_exists p = inr true).

(** Checking the numbered name [i] raises [oe]. *)
Local Abbreviation check_raises path i oe :=
  (exists p, candidate path i = Some p /\ path_exists p = inl oe).

Lemma find_unused_loop_first_free (path free : Path) (bound i k : nat) :
  (i <= k)%nat -> (k - i < bound)%nat ->
  (forall j, (i <= j < k)%nat -> taken path j) ->
  candidate path k = Some free ->
  path_exists free = inr false ->
  find_unused_loop bound path i = Ok free.
Proof.
  revert i.
  induction bound as [|bound IH]; intros i Hik Hb Htaken Hk Hfree; [lia|].
  cbn [UnusedPath.find_unused_loop].
  destruct (decide (i = k)) as [->|Hne].
  - by rewrite Hk, Hfree.
  - destruct (Htaken i) as (p & -> & ->); [lia|].
    apply IH; [lia|lia| |exact Hk|exact Hfree].
    intros j Hj. apply Htaken. lia.
Qed.

Lemma find_unused_loop_outcome (path : Path) (bound i : nat) :
  match find_unused_loop bound path i with
  | Ok r => path_exists r = inr false
  | Err e =>
      exists j, (i <= j < i + bound)%nat /\
        (forall j', (i <= j' < j)%nat -> taken path j') /\
        ((e = ValueError /\ candidate path j = None) \/
         (exists oe, e = RaisedOSError oe /\ check_raises path j oe))
  | Unfinished => forall j, (i <= j < i + bound)%nat -> taken path j
  end.
Proof.
  revert i. induction bound as [|bound IH]; intros i.
  - simpl. intros j Hj. lia.
  - cbn [UnusedPath.find_unused_loop].
    destruct (candidate path i) as [p|] eqn:Hc.
    + destruct (path_exists p) as [oe|[|]] eqn:Hp.
      * exists i. split; [lia|]. split; [intros j' Hj'; lia|].
        right. exists oe. split; [reflexivity|]. by exists p.
      * specialize (IH (S i)).
        destruct (find_unused_loop bound path (S i)) as [r|e|].
        -- exact IH.
        -- destruct IH as (j & Hj & Hbefore & Hwhy).
           exists j. split; [lia|]. split; [|exact Hwhy].
           intros j' Hj'. destruct (decide (j' = i)) as [->|]; [by exists p|].
           apply Hbefore. lia.
        -- intros j Hj. destruct (decide (j = i)) as [->|]; [by exists p|].
           apply IH. lia.
      * exact Hp.
    + exists i. split; [lia|]. split; [intros j' Hj'; lia|].
      left. by split.
Qed.

(** X9. When the path is taken, the result is the name with the least
    number, counting from 1, that is free: if the names numbered below
    [k] exist and number [k] does not, the loop ends within [k] rounds
    with [stem-k.ext]. *)
Theorem find_unused_path_first_free (path free : Path) (bound k : nat) :
  path_exists path = inr true ->
  (1 <= k <= bound)%nat ->
  (forall j, (1 <= j < k)%nat -> taken path j) ->
  candidate path k = Some free ->
  path_exists free = inr false ->
  find_unused_path bound path = Ok free.
Proof.
  intros Hpath Hk Htaken Hcand Hfree.
  unfold UnusedPath.find_unused_path. rewrite Hpath.
  apply (find_unused_loop_first_free path free bound 1 k);
    [lia|lia|exact Htaken|exact Hcand|exact Hfree].
Qed.

(** X10. The function never returns a path that exists, and a path
    that does not exist is returned as it is.  It raises in three cases
    only: the check of the path itself raises an [OSError]; or the path
    and the names numbered below some [j] exist and [with_name] rejects
    name [j] ([ValueError]); or they exist and the check of name [j]
    raises an [OSError].  The [OSError] is passed on unchanged.  The loop
    is still running after [bound] rounds only if the path and all the
    names numbered 1 to [bound] exist. *)
Theorem find_unused_path_outcome (path : Path) (bound : nat) :
  match find_unused_path bound path with
  | Ok r =>
      path_exists r = inr false /\ (path_exists path = inr false -> r = path)
  | Err e =>
      (exists oe, e = RaisedOSError oe /\ path_exists path = inl oe) \/
      (path_exists path = inr true /\
       exists j, (1 <= j <= bound)%nat /\
         (forall j', (1 <= j' < j)%nat -> taken path j') /\
         ((e = ValueError /\ candidate path j = None) \/
          (exists oe, e = RaisedOSError oe /\ check_raises path j oe)))
  | Unfinished =>
      path_exists path = inr true /\
      forall j, (1 <= j <= bound)%nat -> taken path j
  end.
Proof.
  unfold UnusedPath.find_unused_path.
  destruct (path_exists path) as [oe|[|]] eqn:Hpath.
  - left. by exists oe.
  - pose proof (find_unused_loop_outcome path bound 1) as Hloop.
    destruct (find_unused_loop bound path 1) as [r|e|].
    + split; [exact Hloop|]. discriminate.
    + right. split; [reflexivity|].
      destruct Hloop as (j & Hj & Hbefore & Hwhy).
      exists j. split; [lia|]. split; [exact Hbefore|exact Hwhy].
    + split; [reflexivity|]. intros j Hj. apply Hloop. lia.
  - by split.
Qed.

End UnusedPathFacts.

Lemma find_unused_path_first_free_witness :
  UnusedPath.find_unused_path string UnusedPath.on_disk UnusedPath.image_stem
    UnusedPath.image_suffix UnusedPath.in_out 5 "out/image.png"
  = Ok "out/image-3.png".
Proof.
  apply (find_unused_path_first_free string UnusedPath.on_disk
           UnusedPath.image_stem UnusedPath.image_suffix UnusedPath.in_out
           "out/image.png" "out/image-3.png" 5 3).
  - reflexivity.
  - lia.
  - intros j Hj. assert (j = 1 \/ j = 2)%nat as [-> | ->] by lia;
      eexists; split; reflexivity.
  - reflexivity.
  - reflexivity.
Defined.

Lemma find_unused_path_outcome_witness :
  UnusedPath.find_unused_path string UnusedPath.on_disk UnusedPath.image_stem
    UnusedPath.image_suffix UnusedPath.in_out 2 "out/image.png" = Unfinished /\
  UnusedPath.find_unused_path string UnusedPath.on_disk UnusedPath.image_stem
    UnusedPath.image_suffix UnusedPath.in_out 0 "out/new.png" = Ok "out/new.png".
Proof.
  pose proof (find_unused_path_outcome string UnusedPath.on_disk
                UnusedPath.image_stem UnusedPath.image_suffix UnusedPath.in_out
                "out/new.png" 0) as Hnew.
  split; [reflexivity|].
  destruct (UnusedPath.find_unused_path string UnusedPath.on_disk
              UnusedPath.image_stem UnusedPath.image_suffix UnusedPath.in_out
              0 "out/new.png") as [r|e|].
  - destruct Hnew as [_ Hsame]. by rewrite (Hsame eq_refl).
  - destruct Hnew as [(oe & _ & Hex)|(Hex & _)]; discriminate Hex.
  - destruct Hnew as [Hex _]. discriminate Hex.
Defined.

(** ** [get_path_dict] *)

Lemma leaf_at_empty (chain : list string) : PathDict.leaf_at ∅ chain = None.
Proof. destruct chain; simpl; [reflexivity|]. by rewrite lookup_empty. Qed.

Lemma related_cons (k : string) (c1 c2 : list string) :
  PathDict.related (k :: c1) (k :: c2) <-> PathDict.related c1 c2.
Proof.
  unfold PathDict.related. split.
  - intros [H|H]; [left|right]; by apply prefix_cons_inv_2 in H.
  - intros [H|H]; [left|right]; by apply prefix_cons.
Qed.

Lemma related_cons_ne (k1 k2 : string) (c1 c2 : list string) :
  k1 <> k2 -> ~ PathDict.related (k1 :: c1) (k2 :: c2).
Proof.
  intros Hne [H|H]; apply prefix_cons_inv_1 in H; congruence.
Qed.

Lemma related_nil (c : list string) : PathDict.related [] c.
Proof. left. apply prefix_nil. Qed.

(** One step of [_recurse] on a chain of two or more names. *)
Lemma recurse_step (dic : gmap string PathDict.node)
    (k r : string) (rest : list string) (full_path : string) :
  PathDict._recurse dic (k :: r :: rest) full_path =
    match dic !! k with
    | Some (PathDict.Leaf _) =>
        match rest with
        | [] => Err TypeError
        | _ :: _ => Err AttributeError
        end
    | Some (PathDict.Dir sub) =>
        match PathDict._recurse sub (r :: rest) full_path with
        | Ok sub' => Ok (<[k := PathDict.Dir sub']> dic)
        | Err e => Err e
        | Unfinished => Unfinished
        end
    | None =>
        match PathDict._recurse ∅ (r :: rest) full_path with
        | Ok sub' => Ok (<[k := PathDict.Dir sub']> dic)
        | Err e => Err e
        | Unfinished => Unfinished
        end
    end.
Proof. reflexivity. Qed.

(** A path string at a position blocks every chain that goes on below
    it. *)
Lemma recurse_blocked (dic : gmap string PathDict.node)
    (c rest : list string) (s full_path : string) :
  PathDict.leaf_at dic c = Some s -> rest <> [] ->
  PathDict._recurse dic (c ++ rest) full_path =
    Err (match rest with [_] => TypeError | _ => AttributeError end).
Proof.
  revert dic. induction c as [|k c IH]; intros dic Hleaf Hrest; [discriminate|].
  simpl in Hleaf.
  destruct (dic !! k) as [[s'|sub]|] eqn:Hk; [| |discriminate].
  - destruct c; [|discriminate].
    destruct rest as [|r rest]; [done|]. simpl. rewrite Hk.
    by destruct rest.
  - destruct c as [|k' c]; [discriminate|].
    specialize (IH sub Hleaf Hrest).
    cbn [app] in *. rewrite recurse_step, Hk, IH. reflexivity.
Qed.

(** Without such a path string the insertion goes through. *)
Lemma recurse_free (dic : gmap string PathDict.node)
    (chain : list string) (full_path : string) :
  (forall c, c `prefix_of` chain -> c <> chain -> PathDict.leaf_at dic c = None) ->
  exists dic', PathDict._recurse dic chain full_path = Ok dic'.
Proof.
  revert dic. induction chain as [|k chain IH]; intros dic Hfree; [by eexists|].
  destruct chain as [|r rest]; [by eexists|].
  rewrite recurse_step.
  assert (Hsub : forall sub,
    (forall c, PathDict.leaf_at sub c = PathDict.leaf_at dic (k :: c) \/ c = []) ->
    exists sub', PathDict._recurse sub (r :: rest) full_path = Ok sub').
  { intros sub Hsame. apply IH. intros c Hpre Hne.
    destruct (Hsame c) as [->| ->]; [|reflexivity].
    apply Hfree; [by apply prefix_cons|congruence]. }
  destruct (dic !! k) as [[s|sub]|] eqn:Hk.
  - specialize (Hfree [k]). simpl in Hfree. rewrite Hk in Hfree.
    discriminate Hfree; [|discriminate].
    apply prefix_cons, prefix_nil.
  - destruct (Hsub sub) as [sub' ->]; [|by eexists].
    intros [|k' c]; [by right|left]. simpl. by rewrite Hk.
  - destruct (Hsub ∅) as [sub' ->]; [|by eexists].
    intros [|k' c]; [by right|left]. rewrite leaf_at_empty. simpl. by rewrite Hk.
Qed.

(** What a successful insertion does to the path strings of the tree. *)
Lemma recurse_leaves (dic dic' : gmap string PathDict.node)
    (chain : list string) (full_path : string) :
  chain <> [] ->
  PathDict._recurse dic chain full_path = Ok dic' ->
  forall c,
    (c = chain -> PathDict.leaf_at dic' c = Some full_path) /\
    (c <> chain -> PathDict.related c chain -> PathDict.leaf_at dic' c = None) /\
    (~ PathDict.related c chain ->
     PathDict.leaf_at dic' c = PathDict.leaf_at dic c).
Proof.
  revert dic dic'. induction chain as [|k chain IH]; intros dic dic' Hne Hrun c;
    [done|].
  destruct chain as [|r rest].
  - (* one name: the item is assigned *)
    injection Hrun as <-.
    destruct c as [|k2 c].
    + split; [discriminate|]. split; [reflexivity|].
      intros Hun. destruct Hun. apply related_nil.
    + destruct (decide (k2 = k)) as [->|Hk].
      * simpl. rewrite lookup_insert_eq.
        split; [by intros [= ->]|]. split.
        -- intros Hc _. destruct c; [done|reflexivity].
        -- intros Hun. destruct Hun. right. apply prefix_cons, prefix_nil.
      * simpl. rewrite lookup_insert_ne by done.
        split; [intros [= ? ?]; congruence|]. split; [|reflexivity].
        intros _ Hrel. by apply related_cons_ne in Hrel.
  - (* two or more names: descend *)
    rewrite recurse_step in Hrun.
    assert (Hdown : exists sub sub',
      PathDict._recurse sub (r :: rest) full_path = Ok sub' /\
      dic' = <[k := PathDict.Dir sub']> dic /\
      forall c', PathDict.leaf_at dic (k :: c') = PathDict.leaf_at sub c').
    { destruct (dic !! k) as [[s|sub]|] eqn:Hk.
      - by destruct rest.
      - destruct (PathDict._recurse sub (r :: rest) full_path) as [sub'| |] eqn:Hs;
          try discriminate.
        injection Hrun as <-. exists sub, sub'. split; [exact Hs|]. split; [reflexivity|].
        intros c'. simpl. rewrite Hk. by destruct c'.
      - destruct (PathDict._recurse ∅ (r :: rest) full_path) as [sub'| |] eqn:Hs;
          try discriminate.
        injection Hrun as <-. exists ∅, sub'. split; [exact Hs|]. split; [reflexivity|].
        intros c'. simpl. rewrite Hk. by rewrite leaf_at_empty. }
    destruct Hdown as (sub & sub' & Hs & -> & Hsame).
    destruct c as [|k2 c].
    + split; [discriminate|]. split; [reflexivity|].
      intros Hun. destruct Hun. apply related_nil.
    + destruct (decide (k2 = k)) as [->|Hk].
      * destruct (IH sub sub' ltac:(discriminate) Hs c) as (Heq & Hrel & Hun).
        assert (Hread : PathDict.leaf_at (<[k := PathDict.Dir sub']> dic) (k :: c)
                        = PathDict.leaf_at sub' c).
        { simpl. rewrite lookup_insert_eq. by destruct c. }
        rewrite Hread, Hsame, related_cons.
        split; [intros [= ->]; by apply Heq|]. split; [|exact Hun].
        intros Hc. apply Hrel. congruence.
      * simpl. rewrite lookup_insert_ne by done.
        split; [intros [= ? ?]; congruence|]. split; [|reflexivity].
        intros _ Hrel. by apply related_cons_ne in Hrel.
Qed.

(** Either every proper beginning of a chain is free of path strings, or
    one of them holds one. *)
Lemma free_prefix_or_blocked (dic : gmap string PathDict.node) (chain : list string) :
  (forall c, c `prefix_of` chain -> c <> chain -> PathDict.leaf_at dic c = None) \/
  (exists c, c `prefix_of` chain /\ c <> chain /\ PathDict.leaf_at dic c <> None).
Proof.
  revert dic. induction chain as [|k chain IH]; intros dic.
  - left. intros c Hpre Hne. apply prefix_nil_inv in Hpre. done.
  - destruct (dic !! k) as [[s|sub]|] eqn:Hk.
    + destruct chain as [|r rest].
      * left. intros [|k2 c] Hpre Hne; [reflexivity|].
        pose proof (prefix_cons_inv_1 _ _ _ _ Hpre) as ->.
        apply prefix_cons_inv_2, prefix_nil_inv in Hpre. congruence.
      * right. exists [k]. split; [apply prefix_cons, prefix_nil|].
        split; [discriminate|]. simpl. by rewrite Hk.
    + destruct (IH sub) as [Hfree|(c & Hpre & Hne & Hleaf)].
      * left. intros [|k2 c] Hpre Hne; [reflexivity|].
        pose proof (prefix_cons_inv_1 _ _ _ _ Hpre) as ->.
        apply prefix_cons_inv_2 in Hpre. simpl. rewrite Hk.
        destruct c as [|k3 c]; [reflexivity|].
        apply Hfree; [exact Hpre|congruence].
      * right. exists (k :: c). split; [by apply prefix_cons|].
        split; [congruence|]. simpl. rewrite Hk.
        destruct c; [done|exact Hleaf].
    + left. intros [|k2 c] Hpre Hne; [reflexivity|].
      pose proof (prefix_cons_inv_1 _ _ _ _ Hpre) as ->.
      simpl. by rewrite Hk.
Qed.




(** X13. After a successful insertion of a non-empty chain, the chain
    leads to the given path string; every other position on the way to
    it or below it holds no path string (what was stored below is no
    longer reachable); and every position elsewhere reads as before. *)
Theorem recurse_effect (dic dic' : gmap string PathDict.node)
    (chain : list string) (full_path : string) :
  chain <> [] ->
  PathDict._recurse dic chain full_path = Ok dic' ->
  PathDict.leaf_at dic' chain = Some full_path /\
  (forall c, c <> chain -> PathDict.related c chain ->
             PathDict.leaf_at dic' c = None) /\
  (forall c, ~ PathDict.related c chain ->
             PathDict.leaf_at dic' c = PathDict.leaf_at dic c).
Proof.
  intros Hne Hrun.
  pose proof (recurse_leaves dic dic' chain full_path Hne Hrun) as Hall.
  split; [by apply (Hall chain)|]. split; intros c; by apply (Hall c).
Qed.

Lemma recurse_effect_witness :
  exists dic',
    PathDict._recurse
      {[ "models" := PathDict.Dir {[ "a.bin" := PathDict.Leaf "models/a.bin" ]} ]}
      ["models"] "models" = Ok dic' /\
    PathDict.leaf_at dic' ["models"] = Some "models" /\
    PathDict.leaf_at dic' ["models"; "a.bin"] = None.
Proof.
  eexists. split; [reflexivity|].
  destruct (recurse_effect
              {[ "models" := PathDict.Dir {[ "a.bin" := PathDict.Leaf "models/a.bin" ]} ]}
              _ ["models"] "models" ltac:(discriminate) eq_refl)
    as (Hat & Hrel & _).
  split; [exact Hat|].
  apply Hrel; [discriminate|]. right. by exists ["a.bin"].
Defined.

Lemma related_dec (c1 c2 : list string) :
  PathDict.related c1 c2 \/ ~ PathDict.related c1 c2.
Proof.
  unfold PathDict.related.
  destruct (decide (c1 `prefix_of` c2)), (decide (c2 `prefix_of` c1)); tauto.
Qed.

Section PathDictFacts.

Variable parts : string -> list string.

(** Adding independent paths to a dictionary whose path strings are
    unrelated to them: all are stored, nothing is lost, nothing else
    appears. *)
Lemma add_paths_independent (dic : gmap string PathDict.node) (paths : list string) :
  PathDict.independent (map parts paths) ->
  (forall p c s, p ∈ paths -> PathDict.leaf_at dic c = Some s ->
                 ~ PathDict.related c (parts p)) ->
  exists dic',
    PathDict.add_paths parts dic paths = Ok dic' /\
    (forall p, p ∈ paths -> PathDict.leaf_at dic' (parts p) = Some p) /\
    (forall c s, PathDict.leaf_at dic c = Some s ->
                 PathDict.leaf_at dic' c = Some s) /\
    (forall c s, PathDict.leaf_at dic' c = Some s ->
                 PathDict.leaf_at dic c = Some s \/ (s ∈ paths /\ parts s = c)).
Proof.
  revert dic. induction paths as [|p ps IH]; intros dic Hind Hold.
  - exists dic. split; [reflexivity|]. split; [|split]; auto.
    intros p Hp. by apply elem_of_nil in Hp.
  - destruct Hind as (Hne & Hothers & Hind). cbn [PathDict.add_paths].
    destruct (recurse_free dic (parts p) p) as [dic1 Hrun].
    { intros c Hpre Hc.
      destruct (PathDict.leaf_at dic c) as [s|] eqn:Hs; [|reflexivity].
      destruct (Hold p c s); [left|exact Hs|by left]. }
    rewrite Hrun.
    pose proof (recurse_leaves dic dic1 (parts p) p Hne Hrun) as Hall.
    destruct (IH dic1 Hind) as (dic' & Hadd & Hstored & Hkept & Honly).
    { intros q c s Hq Hs.
      destruct (decide (c = parts p)) as [->|Hc].
      - rewrite Forall_forall in Hothers. apply Hothers.
        apply (list_elem_of_fmap_2 parts). exact Hq.
      - destruct (related_dec c (parts p)) as [Hrel|Hun].
        + destruct (Hall c) as (_ & Hnone & _).
          rewrite Hnone in Hs by assumption. discriminate.
        + destruct (Hall c) as (_ & _ & Hsame).
          rewrite Hsame in Hs by assumption.
          apply (Hold q c s); [by right|exact Hs]. }
    exists dic'. split; [exact Hadd|]. split; [|split].
    + intros q Hq. apply elem_of_cons in Hq as [->|Hq]; [|by apply Hstored].
      apply Hkept. by apply (Hall (parts p)).
    + intros c s Hs. apply Hkept.
      destruct (Hall c) as (_ & _ & Hsame). rewrite Hsame; [exact Hs|].
      apply (Hold p c s); [by left|exact Hs].
    + intros c s Hs. destruct (Honly c s Hs) as [Hs1|[Hin Hparts]].
      * destruct (decide (c = parts p)) as [->|Hc].
        -- destruct (Hall (parts p)) as (Hat & _ & _).
           rewrite Hat in Hs1 by reflexivity. injection Hs1 as <-.
           right. split; [by left|reflexivity].
        -- destruct (related_dec c (parts p)) as [Hrel|Hun].
           ++ destruct (Hall c) as (_ & Hnone & _).
              rewrite Hnone in Hs1 by assumption. discriminate.
           ++ destruct (Hall c) as (_ & _ & Hsame).
              left. by rewrite <- Hsame.
      * right. split; [by right|exact Hparts].
Qed.



End PathDictFacts.



(** ** Platform flags *)

(** X16. The three module flags split the values of [sys.platform]
    into three classes: exactly one flag holds, and [is_linux] is the
    flag of every platform whose name neither begins with [win] nor is
    [darwin]. *)
Theorem platform_flags_partition (sys_platform : string) :
  (Platform.is_windows sys_platform = true /\
   Platform.is_macos sys_platform = false /\
   Platform.is_linux sys_platform = false) \/
  (Platform.is_windows sys_platform = false /\
   Platform.is_macos sys_platform = true /\
   Platform.is_linux sys_platform = false) \/
  (Platform.is_windows sys_platform = false /\
   Platform.is_macos sys_platform = false /\
   Platform.is_linux sys_platform = true /\
   PyStr.startswith sys_platform "win" = false /\
   sys_platform <> "darwin").
Proof.
  unfold Platform.is_linux, Platform.is_macos.
  destruct (String.eqb_spec sys_platform "darwin") as [->|Hne].
  - right. left. repeat split.
  - destruct (Platform.is_windows sys_platform) eqn:Hwin.
    + left. repeat split.
    + right. right. repeat split; assumption.
Qed.

(** ** More on the launch *)

(** X17. Every variable of the child's environment other than
    [PYTHONPATH] has the override value when the overrides define it and
    the host's value otherwise; a variable defined by neither is not
    defined for the child. *)
Theorem child_env_lookup
    sys_platform os_exec kernel (w : World) (r : Request) :
  request_live w r ->
  let w' := world_after (create_process sys_platform os_exec kernel r) w in
  exists c,
    spawned w' = c :: spawned w /\
    forall k, k <> "PYTHONPATH" ->
      ex_env c !! k =
        match overrides w r !! k with
        | Some v => Some v
        | None => host_environ w !! k
        end.
Proof.
  intros Hlive.
  destruct (create_process_child_env sys_platform os_exec kernel w r Hlive)
    as (c & Hc & Henv & _).
  exists c. split; [exact Hc|]. intros k Hk.
  rewrite Henv. unfold sanitize. rewrite lookup_delete_ne by done.
  rewrite lookup_union.
  destruct (overrides w r !! k), (host_environ w !! k); reflexivity.
Qed.

Lemma child_env_lookup_witness :
  exists c,
    spawned (world_after (create_process "linux" Scenario.os_exec
               Scenario.kernel Scenario.request) Scenario.host) = [c] /\
    ex_env c !! "PATH" = Some "/usr/bin" /\
    ex_env c !! "HOME" = None.
Proof.
  destruct (child_env_lookup "linux" Scenario.os_exec Scenario.kernel
              Scenario.host Scenario.request scenario_live) as (c & Hc & Hk).
  exists c. split; [exact Hc|].
  split; rewrite Hk by discriminate; reflexivity.
Defined.

(** X18. A launch touches the job state in one case only: on Windows,
    after the operating system has started the child, it makes one
    attachment call with that child's process id.  On every other
    platform, and whenever the spawn fails, the job state is as
    before. *)
Theorem attach_only_after_spawn_on_windows
    sys_platform os_exec kernel (w : World) (r : Request) :
  let w' := world_after (create_process sys_platform os_exec kernel r) w in
  exists c,
    spawned w' = c :: spawned w /\
    jobs w' =
      match os_exec (spawned w) c with
      | inr child =>
          if Platform.is_windows sys_platform
          then win32.attach_process_to_job kernel child (jobs w)
          else jobs w
      | inl _ => jobs w
      end.
Proof.
  destruct (create_process_run sys_platform os_exec kernel w r)
    as (env & h' & _ & _ & Hrun).
  simpl in Hrun. unfold world_after. simpl. eexists. rewrite Hrun.
  split.
  - destruct (os_exec _ _); reflexivity.
  - simpl. destruct (os_exec _ _); reflexivity.
Qed.

(** X19. A launch leaves nothing behind for the next one: after any
    first launch, a second launch gets the environment computed from the
    original host environment and its own overrides, and the two spawn
    requests are recorded in order. *)
Theorem second_launch_unaffected
    p1 os1 k1 p2 os2 k2 (w : World) (r1 r2 : Request) :
  environ_live w -> request_live w r1 -> request_live w r2 ->
  let w1 := world_after (create_process p1 os1 k1 r1) w in
  let w2 := world_after (create_process p2 os2 k2 r2) w1 in
  exists c1 c2,
    spawned w2 = c2 :: c1 :: spawned w /\
    ex_env c1 = sanitize (host_environ w) (overrides w r1) /\
    ex_env c2 = sanitize (host_environ w) (overrides w r2).
Proof.
  intros Henv Hl1 Hl2.
  destruct (create_process_child_env p1 os1 k1 w r1 Hl1)
    as (c1 & Hc1 & He1 & Hobj1 & Hos1).
  set (w1 := world_after (create_process p1 os1 k1 r1) w) in *.
  assert (Hframe : forall l, is_Some (objects w !! l) ->
            objects w1 !! l = objects w !! l).
  { intros l Hl. rewrite Hobj1. apply lookup_insert_ne. by apply fresh_not_live. }
  assert (Hl2' : request_live w1 r2).
  { unfold request_live in *. destruct (additional_env r2) as [l|]; [|done].
    by rewrite (Hframe l Hl2). }
  assert (HB : host_environ w1 = host_environ w).
  { unfold host_environ, PyDict.deref. rewrite Hos1. by rewrite (Hframe _ Henv). }
  assert (HO : overrides w1 r2 = overrides w r2).
  { unfold overrides, request_live, PyDict.deref in *.
    destruct (additional_env r2) as [l|]; [|reflexivity].
    by rewrite (Hframe l Hl2). }
  destruct (create_process_child_env p2 os2 k2 w1 r2 Hl2')
    as (c2 & Hc2 & He2 & _ & _).
  simpl. exists c1, c2. rewrite Hc2, Hc1.
  split; [reflexivity|]. split; [exact He1|].
  by rewrite He2, HB, HO.
Qed.

Lemma second_launch_unaffected_witness :
  exists c1 c2,
    spawned (world_after
               (create_process "linux" Scenario.os_exec Scenario.kernel
                  Scenario.missing_request)
               (world_after
                  (create_process "linux" Scenario.os_exec Scenario.kernel
                     Scenario.request) Scenario.host)) = [c2; c1] /\
    ex_env c2 !! "PATH" = Some "/usr/bin" /\
    ex_env c2 !! "MODE" = None.
Proof.
  destruct (second_launch_unaffected
              "linux" Scenario.os_exec Scenario.kernel
              "linux" Scenario.os_exec Scenario.kernel
              Scenario.host Scenario.request Scenario.missing_request)
    as (c1 & c2 & Hlog & _ & He2).
  - eexists; reflexivity.
  - exact scenario_live.
  - exact I.
  - exists c1, c2. split; [exact Hlog|]. rewrite He2. split; reflexivity.
Defined.

(** ** More on the long-path rewrite *)

Section LongPathFacts.

Variable abspath : string -> string.

Lemma strip_long_targetpath (p : string) :
  Zip.nt_absolute (abspath p) = true ->
  Zip.strip_long (Zip.long_targetpath abspath p) = abspath p.
Proof.
  intros Habs. unfold Zip.long_targetpath, Zip.strip_long.
  destruct (PyStr.startswith (abspath p) "\\") eqn:Hunc.
  - rewrite (startswith_app "\\?\UNC\"), (slice_from_app "\\?\UNC\").
    symmetry. exact (startswith_split _ _ Hunc).
  - replace (PyStr.startswith ("\\?\" ++ abspath p) "\\?\UNC\") with false.
    + exact (slice_from_app "\\?\" _).
    + symmetry. change (PyStr.startswith (abspath p) "UNC\" = false).
      exact (nt_absolute_drive _ Habs Hunc).
Qed.

(** X20. Two targets whose absolute forms are different absolute
    Windows paths are rewritten to different extended-length paths: the
    rewrite never makes two entries collide. *)
Theorem long_targetpath_injective (p q : string) :
  Zip.nt_absolute (abspath p) = true ->
  Zip.nt_absolute (abspath q) = true ->
  Zip.long_targetpath abspath p = Zip.long_targetpath abspath q ->
  abspath p = abspath q.
Proof.
  intros Hp Hq Heq.
  rewrite <- (strip_long_targetpath p Hp), <- (strip_long_targetpath q Hq).
  by rewrite Heq.
Qed.

(** X21. The rewrite does not look for a prefix that is already there:
    a target whose absolute form begins with [\\?\] is treated as a UNC
    root and comes out as [\\?\UNC\?\...], so rewriting an
    extended-length path changes it again. *)
Theorem long_targetpath_on_extended (p rest : string) :
  abspath p = "\\?\" ++ rest ->
  Zip.long_targetpath abspath p = "\\?\UNC\?\" ++ rest /\
  Zip.long_targetpath abspath p <> abspath p.
Proof.
  intros Habs. unfold Zip.long_targetpath. rewrite Habs.
  split; [reflexivity|].
  intros H. apply (f_equal String.length) in H. vm_compute in H. lia.
Qed.

End LongPathFacts.

Lemma long_targetpath_injective_witness :
  Zip.long_targetpath Scenario.abspath "unpack"
    = Zip.long_targetpath Scenario.abspath "C:\krita\unpack" /\
  Scenario.abspath "unpack" = Scenario.abspath "C:\krita\unpack".
Proof.
  split; [reflexivity|].
  apply (long_targetpath_injective Scenario.abspath "unpack" "C:\krita\unpack");
    reflexivity.
Defined.

Lemma long_targetpath_on_extended_witness :
  Zip.long_targetpath Scenario.abspath "\\?\C:\krita\unpack"
    = "\\?\UNC\?\C:\krita\unpack".
Proof.
  apply (long_targetpath_on_extended Scenario.abspath
           "\\?\C:\krita\unpack" "C:\krita\unpack").
  reflexivity.
Defined.

(** ** The window between spawn and attachment *)

(** X22. While a launch is suspended at its [await], its spawn request
    has been made but the job state is still as before: a child started
    on Windows is attached only when the coroutine runs again, and
    whatever the event loop runs in between sees it unattached. *)
Theorem child_unattached_while_awaiting
    sys_platform os_exec kernel (w : World) (r : Request) :
  exists c res w',
    advance sys_platform os_exec kernel (Pending r) w = (Awaiting res, w') /\
    spawned w' = c :: spawned w /\
    jobs w' = jobs w.
Proof.
  destruct (create_process_spawn_step sys_platform os_exec r w)
    as (c & h' & _ & Hstep).
  cbn [advance]. rewrite Hstep.
  eexists c, _, _. split; [reflexivity|].
  split; [reflexivity|]. split; reflexivity.
Qed.
